(** * discord_party: the [Party] session object and its asyncio coordination

    A shallow embedding of [src/discord_party.py].  The Python objects become
    records, the status dictionary a [gmap], raised exceptions an error result,
    and every coroutine an explicit resumable frame (the program point at which
    it is suspended together with its live locals) that an embedding of the
    asyncio event loop steps. *)

From Stdlib Require Import ZArith String Ascii List.
From stdpp Require Import base option list gmap strings fin_maps.

Local Open Scope string_scope.
Local Open Scope Z_scope.
#[local] Set Warnings "-register-all".

(** ** Python values, exceptions and results *)

Inductive value : Type :=
| VNone
| VInt (n : Z)
| VStr (s : string)
| VList (l : list value).

Inductive exn : Type :=
| KeyError (key : string)
| AttributeError (attr : string)
| TypeError
| IndexError
| InvalidStateError
| CancelledError
| InvalidPipe
| EventNotFound
| RuntimeError (msg : string).

Inductive result (A : Type) : Type :=
| Ok (a : A)
| Err (e : exn).
Arguments Ok {A} a.
Arguments Err {A} e.

Definition is_cancelled (e : exn) : bool :=
  match e with CancelledError => true | _ => false end.

Definition is_invalid_pipe (e : exn) : bool :=
  match e with InvalidPipe => true | _ => false end.

(** [str.lower()] on ASCII text. *)
Definition lower_ascii (c : ascii) : ascii :=
  let n := nat_of_ascii c in
  if (Nat.leb 65 n && Nat.leb n 90)%bool then ascii_of_nat (n + 32) else c.

Fixpoint lower (s : string) : string :=
  match s with
  | EmptyString => EmptyString
  | String c s' => String (lower_ascii c) (lower s')
  end.

Arguments lower : simpl never.

(** [obj[i]] and [obj[i] = v] on a Python value that is expected to be a list. *)
Definition getitem (v : value) (i : nat) : result value :=
  match v with
  | VList l => match l !! i with Some x => Ok x | None => Err IndexError end
  | _ => Err TypeError
  end.

Definition setitem (v : value) (i : nat) (x : value) : result value :=
  match v with
  | VList l => if (i <? length l)%nat then Ok (VList (<[i:=x]> l)) else Err IndexError
  | _ => Err TypeError
  end.

(** ** Objects

    Closures of the source are defunctionalised: [handler] is the inner
    function of [wait_for_player_join], which captures the future [fut];
    [callback] is the caller's [meanwhile]. *)

Inductive func : Type :=
| handler (fut : nat).

Inductive callback : Type :=
| cb_none                 (* lambda: None, the default *)
| cb_count                (* increments the counter [calls], returns None *)
| cb_awaitable (f : nat)  (* increments the counter, returns the awaitable future f *)
| cb_raise (e : exn).     (* raises e *)

(** What the session has written to the protocol client's pipe. *)
Inductive request : Type :=
| Handshake
| SetActivity (kwargs : gmap string value)
| Subscribe (event : string)
| Unsubscribe (event : string)
| CloseConnection.

(** [pypresence.AioClient], an external collaborator: only the attribute
    [_events], which [register_event] of the source writes, the requests
    written to the pipe and the reads waiting for an answer are kept. *)
Record AioClient : Type := mkClient {
  _events : gmap string func;
  sent : list request;
  reading : list nat     (* futures of the requests the peer has not answered yet *)
}.

(** The one [AioClient] the constructor creates lives in the world; the
    session's attribute [_rpc] is a reference to it, or [None]. *)
Inductive ref : Type := the_client.

Record PartyObj : Type := mkParty {
  _rpc : option ref;
  _status : gmap string value;
  updating_loop : option nat
}.

(** Coroutine frames.  Each constructor of a [_pc] type is a point of the
    source function at which the coroutine can be suspended. *)
Inductive leloop_pc : Type :=
| L_begin                  (* created, not started *)
| L_update (io : nat)      (* in [await self.update()] *)
| L_sleep (timer : nat)    (* in [await asyncio.sleep(delay)], delay > 0 *)
| L_sleep0.                (* in [await asyncio.sleep(delay)], delay <= 0 *)

Inductive meantime_pc : Type :=
| M_begin
| M_await (aw : nat)       (* in [await maybeawait] *)
| M_sleep (timer : nat)
| M_sleep0.

Inductive register_pc : Type :=
| R_begin
| R_subscribe (io : nat).  (* in [await self.subscribe(event, args or {})] *)

Inductive update_pc : Type :=
| U_begin
| U_set_activity (io : nat).

Inductive start_pc : Type :=
| S_begin
| S_start (io : nat).      (* in [await self._rpc.start()] *)

Inductive wait_pc : Type :=
| W_begin
| W_update (io : nat)                    (* line 248 *)
| W_fut (fut task : nat)                 (* line 263, [secret = await fut] *)
| W_unregister (secret : value) (io : nat). (* line 265 *)

Inductive coro : Type :=
| co_leloop (delay : Z) (pc : leloop_pc)
| co_meantime (meanwhile : callback) (delay : Z) (pc : meantime_pc)
| co_register_event (event : string) (f : func) (pc : register_pc)
| co_update (pc : update_pc)
| co_start (raise_on_fail : bool) (pc : start_pc)
| co_wait_for_player_join (meanwhile : callback) (delay : Z) (pc : wait_pc).

(** [asyncio.Future]: [_state] with the result or exception. *)
Inductive fstate : Type :=
| PENDING
| CANCELLED
| FINISHED (r : result value).

Definition done (s : fstate) : bool :=
  match s with PENDING => false | _ => true end.

(** [asyncio.Task]. *)
Record Task : Type := mkTask {
  _coro : coro;
  _fut_waiter : option nat;
  _must_cancel : bool;
  _state : fstate
}.

(** The event loop: clock (milliseconds), the FIFO of tasks whose step has
    been scheduled with [call_soon], the [call_later] handles of pending
    sleeps, and the heap of tasks and futures (an object is its index). *)
Record Loop : Type := mkLoop {
  time : Z;
  _ready : list nat;
  _scheduled : list (Z * nat);
  tasks : list Task;
  futures : list fstate
}.

Record World : Type := mkWorld {
  client : AioClient;
  party : PartyObj;
  loop : Loop;
  calls : nat          (* how often a counting [meanwhile] has run *)
}.

(** ** A state and exception monad over the world

    A raised exception keeps the mutations made before it, as in Python. *)

Definition M (A : Type) : Type := World -> result A * World.

Definition ret {A} (a : A) : M A := fun w => (Ok a, w).
Definition raise {A} (e : exn) : M A := fun w => (Err e, w).
Definition bind {A B} (m : M A) (k : A -> M B) : M B :=
  fun w => match m w with
           | (Ok a, w') => k a w'
           | (Err e, w') => (Err e, w')
           end.

Declare Scope py_scope.
Delimit Scope py_scope with py.
Notation "x <- m ;; k" := (bind m (fun x => k))
  (at level 100, m at next level, right associativity) : py_scope.
Notation "m ;;; k" := (bind m (fun _ => k))
  (at level 100, right associativity) : py_scope.
Local Open Scope py_scope.

Definition gets {A} (f : World -> A) : M A := fun w => (Ok (f w), w).
Definition modify (f : World -> World) : M unit := fun w => (Ok tt, f w).
Definition exec {A} (m : M A) (w : World) : World := snd (m w).

Definition with_client (f : AioClient -> AioClient) (w : World) : World :=
  mkWorld (f (client w)) (party w) (loop w) (calls w).
Definition with_party (f : PartyObj -> PartyObj) (w : World) : World :=
  mkWorld (client w) (f (party w)) (loop w) (calls w).
Definition with_loop (f : Loop -> Loop) (w : World) : World :=
  mkWorld (client w) (party w) (f (loop w)) (calls w).
Definition with_calls (f : nat -> nat) (w : World) : World :=
  mkWorld (client w) (party w) (loop w) (f (calls w)).

Definition set_tasks (ts : list Task) (l : Loop) : Loop :=
  mkLoop (time l) (_ready l) (_scheduled l) ts (futures l).
Definition set_futures (fs : list fstate) (l : Loop) : Loop :=
  mkLoop (time l) (_ready l) (_scheduled l) (tasks l) fs.
Definition set_ready (r : list nat) (l : Loop) : Loop :=
  mkLoop (time l) r (_scheduled l) (tasks l) (futures l).
Definition set_scheduled (s : list (Z * nat)) (l : Loop) : Loop :=
  mkLoop (time l) (_ready l) s (tasks l) (futures l).
Definition set_time (t : Z) (l : Loop) : Loop :=
  mkLoop t (_ready l) (_scheduled l) (tasks l) (futures l).

(** ** asyncio *)

Module asyncio.

(** [loop.call_soon(task.__step)] *)
Definition call_soon (tid : nat) : M unit :=
  modify (with_loop (fun l => set_ready (_ready l ++ [tid]) l)).

(** [loop.create_future()] *)
Definition create_future : M nat :=
  fun w =>
    let l := loop w in
    (Ok (length (futures l)), with_loop (set_futures (futures l ++ [PENDING])) w).

(** [loop.create_task(coro)]: the first step is scheduled, not run. *)
Definition create_task (c : coro) : M nat :=
  fun w =>
    let l := loop w in
    let tid := length (tasks l) in
    (Ok tid,
     with_loop (fun l => set_ready (_ready l ++ [tid])
                           (set_tasks (tasks l ++ [mkTask c None false PENDING]) l)) w).

(** The tasks blocked on future [f], in creation order: their wake-ups are
    the future's done-callbacks. *)
Definition waiters (f : nat) (ts : list Task) : list nat :=
  omap (fun '(tid, t) =>
          if (negb (done (_state t)) && bool_decide (_fut_waiter t = Some f))%bool
          then Some tid else None)
       (imap pair ts).

Definition schedule_callbacks (f : nat) : M unit :=
  modify (with_loop (fun l => set_ready (_ready l ++ waiters f (tasks l)) l)).

Definition settle (f : nat) (s : fstate) : M unit :=
  modify (with_loop (fun l => set_futures (<[f := s]> (futures l)) l)) ;;;
  schedule_callbacks f.

Definition state_of (f : nat) : M fstate :=
  fs <- gets (fun w => futures (loop w)) ;;
  match fs !! f with
  | Some s => ret s
  | None => raise (RuntimeError "no such future")
  end.

(** [Future.set_result], [Future.set_exception], [Future.cancel] *)
Definition set_result (f : nat) (v : value) : M unit :=
  s <- state_of f ;;
  if done s then raise InvalidStateError else settle f (FINISHED (Ok v)).

Definition set_exception (f : nat) (e : exn) : M unit :=
  s <- state_of f ;;
  if done s then raise InvalidStateError else settle f (FINISHED (Err e)).

Definition cancel_future (f : nat) : M bool :=
  s <- state_of f ;;
  if done s then ret false else settle f CANCELLED ;;; ret true.

Definition update_task (tid : nat) (g : Task -> Task) : M unit :=
  modify (with_loop (fun l => set_tasks (alter g tid (tasks l)) l)).

(** [Task.cancel]: a finished task is left alone; a task blocked on a
    future has that future cancelled; otherwise the next step throws. *)
Definition cancel (tid : nat) : M bool :=
  ts <- gets (fun w => tasks (loop w)) ;;
  match ts !! tid with
  | None => raise (RuntimeError "no such task")
  | Some t =>
      if done (_state t) then ret false
      else
        c <- match _fut_waiter t with
             | Some f => cancel_future f
             | None => ret false
             end ;;
        if (c : bool) then ret true
        else update_task tid (fun t => mkTask (_coro t) (_fut_waiter t) true (_state t)) ;;;
             ret true
  end.

(** How a coroutine gives up control. *)
Inductive suspend : Type :=
| Await (f : nat)   (* blocked on a pending future *)
| Yield0.           (* bare yield of [sleep(0)] *)

(** [asyncio.sleep(delay)]: the part up to the suspension. *)
Definition sleep (delay : Z) : M suspend :=
  if delay <=? 0 then ret Yield0
  else
    f <- create_future ;;
    now <- gets (fun w => time (loop w)) ;;
    modify (with_loop (fun l => set_scheduled (_scheduled l ++ [(now + delay, f)]) l)) ;;;
    ret (Await f).

(** What one step of a coroutine ends in (an exception is the [Err] of the
    monad).  A coroutine is resumed with [Ok v], the value sent in, or with
    [Err e], the exception thrown in at its suspension point. *)
Inductive step : Type :=
| Suspended (c : coro) (s : suspend)
| Returned (v : value).

(** [h.cancel()] in the [finally] of [sleep]. *)
Definition cancel_handle (f : nat) : M unit :=
  modify (with_loop (fun l =>
    set_scheduled (filter (fun h => snd h <> f) (_scheduled l)) l)).

(** [loop.close()]: refused while the loop is running; otherwise the
    callbacks that are still scheduled are dropped.  Whether the loop is
    running is known to the caller: it is, when the call is made from a
    coroutine or a callback. *)
Definition close (running : bool) : M unit :=
  if running then raise (RuntimeError "Cannot close a running event loop")
  else modify (with_loop (fun l => set_scheduled [] (set_ready [] l))).

End asyncio.

(** ** The protocol client (external collaborator)

    Every call on the client writes a request to the pipe and then waits
    for the peer's answer: the caller is suspended on a fresh future, which
    the environment settles when the answer arrives.

    The client is taken to be connected: the handshake of [start] is a
    request like the others, and what the library does with a request made
    before it is not part of the embedding.

    The client reads its answers from one stream, and asyncio refuses a
    read while another one is waiting.  That refusal is not part of the
    embedding, which queues the reads instead: it describes the client for
    the executions in which one request is outstanding at a time, and the
    scenarios about several loops, waits or registrations are chosen among
    those ([one_request_at_a_time]). *)

Module rpc.

Definition request_and_read (r : request) : M nat :=
  f <- asyncio.create_future ;;
  modify (with_client (fun c => mkClient (_events c) (sent c ++ [r]) (reading c ++ [f]))) ;;;
  ret f.

(** [register_event] of the source (lines 44-49), installed on [AioClient]. *)
Definition register_event (event : string) (f : func) (pc : register_pc)
    (inp : result value) : M asyncio.step :=
  match pc, inp with
  | R_begin, Ok _ =>
      (* [callable(func)] holds of every [func] *)
      io <- request_and_read (Subscribe event) ;;
      ret (asyncio.Suspended (co_register_event event f (R_subscribe io)) (asyncio.Await io))
  | R_subscribe _, Ok _ =>
      modify (with_client (fun c =>
        mkClient (<[lower event := f]> (_events c)) (sent c) (reading c))) ;;;
      ret (asyncio.Returned VNone)
  | _, Err e => raise e
  end.

(** The part of [unregister_event] before its [await]: an event that is not
    registered is refused, otherwise the peer is asked to unsubscribe. *)
Definition unregister_event_begin (event : string) : M nat :=
  evs <- gets (fun w => _events (client w)) ;;
  match evs !! lower event with
  | None => raise EventNotFound
  | Some _ => request_and_read (Unsubscribe (lower event))
  end.

(** ... and the part after it: [del self._events[event]]. *)
Definition unregister_event_end (event : string) : M unit :=
  evs <- gets (fun w => _events (client w)) ;;
  match evs !! lower event with
  | None => raise (KeyError (lower event))
  | Some _ =>
      modify (with_client (fun c =>
        mkClient (delete (lower event) (_events c)) (sent c) (reading c)))
  end.

(** Calling a registered function with the payload of an event. *)
Definition call (f : func) (data : gmap string value) : M unit :=
  match f with
  | handler fut =>                       (* fut.set_result(secret['secret']) *)
      match data !! "secret" with
      | Some s => asyncio.set_result fut s
      | None => raise (KeyError "secret")
      end
  end.

(** [on_event]: the function registered under the lower-cased event name,
    if any, is called with the payload. *)
Definition on_event (evt : string) (data : gmap string value) : M unit :=
  evs <- gets (fun w => _events (client w)) ;;
  match evs !! lower evt with
  | Some f => call f data
  | None => ret tt
  end.

End rpc.

(** ** class Party *)

Module Party.

Definition __init__ (pid : Z) : World :=
  mkWorld (mkClient ∅ [] [])
          (mkParty (Some the_client) {[ "pid" := VInt pid ]} None)
          (mkLoop 0 [] [] [] [])
          0%nat.

Definition set_rpc (r : option ref) (p : PartyObj) : PartyObj :=
  mkParty r (_status p) (updating_loop p).
Definition set_status (s : gmap string value) (p : PartyObj) : PartyObj :=
  mkParty (_rpc p) s (updating_loop p).
Definition set_updating_loop (t : option nat) (p : PartyObj) : PartyObj :=
  mkParty (_rpc p) (_status p) t.

Definition __bool__ (self : PartyObj) : bool :=
  bool_decide (_rpc self <> None).

(** A Python property: getter, setter and deleter. *)
Record property : Type := mkProperty {
  fget : PartyObj -> result value;
  fset : value -> PartyObj -> result PartyObj;
  fdel : PartyObj -> result PartyObj
}.

(** [_status_var(dtype, name)(func)]; [func_name] is [func.__name__]. *)
Definition _status_var (name : option string) (func_name : string) : property :=
  let levar := default func_name name in
  {| fget self := Ok (default VNone (_status self !! levar));
     fset v self := Ok (set_status (<[levar := v]> (_status self)) self);
     fdel self :=
       match _status self !! levar with
       | Some _ => Ok (set_status (delete levar (_status self)) self)
       | None => Err (KeyError levar)
       end |}.

Definition party_id := _status_var None "party_id".
Definition id := party_id.
Definition join := _status_var None "join".
Definition secret := join.
Definition spectate := _status_var None "spectate".
Definition spectate_secret := spectate.
Definition state := _status_var None "state".
Definition details := _status_var None "details".
Definition start_time := _status_var (Some "start") "start_time".
Definition end_time := _status_var (Some "end") "end_time".
Definition large_image := _status_var None "large_image".
Definition large_text := _status_var None "large_text".
Definition small_image := _status_var None "small_image".
Definition small_text := _status_var None "small_text".

(** [self._status['party_size'][i]] *)
Definition party_size_get (i : nat) (self : PartyObj) : result value :=
  match _status self !! "party_size" with
  | None => Err (KeyError "party_size")
  | Some l => getitem l i
  end.

(** The setter shared by [size] (i = 0) and [max] (i = 1). *)
Definition party_size_set (i : nat) (v : value) (self : PartyObj) : result PartyObj :=
  match _status self !! "party_size" with
  | None => Ok (set_status (<["party_size" := VList [v; v]]> (_status self)) self)
  | Some l =>
      match setitem l i v with
      | Ok l' => Ok (set_status (<["party_size" := l']> (_status self)) self)
      | Err e => Err e
      end
  end.

Definition size : property :=
  {| fget := party_size_get 0;
     fset := party_size_set 0;
     fdel _ := Err (AttributeError "can't delete attribute") |}.
Definition party_size := size.

Definition max : property :=
  {| fget := party_size_get 1;
     fset := party_size_set 1;
     fdel _ := Err (AttributeError "can't delete attribute") |}.
Definition party_max := max.

(** Lifting a property access to the world. *)
Definition getattr (p : property) : M value :=
  fun w => (fget p (party w), w).

Definition setattr (p : property) (v : value) : M unit :=
  fun w => match fset p v (party w) with
           | Ok self' => (Ok tt, with_party (fun _ => self') w)
           | Err e => (Err e, w)
           end.

Definition delattr (p : property) : M unit :=
  fun w => match fdel p (party w) with
           | Ok self' => (Ok tt, with_party (fun _ => self') w)
           | Err e => (Err e, w)
           end.

(** [self._rpc.<attr>]: the attribute lookup fails on [None]. *)
Definition rpc_attr (attr : string) : M ref :=
  r <- gets (fun w => _rpc (party w)) ;;
  match r with
  | Some c => ret c
  | None => raise (AttributeError attr)
  end.

(** [update], up to its suspension: [None] when it returned without
    suspending, [Some io] when it waits for the answer to [set_activity]. *)
Definition update_begin : M (option nat) :=
  r <- gets (fun w => _rpc (party w)) ;;
  match r with
  | Some _ =>
      st <- gets (fun w => _status (party w)) ;;
      io <- rpc.request_and_read (SetActivity st) ;;
      ret (Some io)
  | None => ret None
  end.

Definition update (pc : update_pc) (inp : result value) : M asyncio.step :=
  match pc, inp with
  | U_begin, Ok _ =>
      r <- update_begin ;;
      match r with
      | Some io => ret (asyncio.Suspended (co_update (U_set_activity io)) (asyncio.Await io))
      | None => ret (asyncio.Returned VNone)
      end
  | U_set_activity _, Ok _ => ret (asyncio.Returned VNone)
  | _, Err e => raise e
  end.

(** [start] *)
Definition start (raise_on_fail : bool) (pc : start_pc) (inp : result value)
    : M asyncio.step :=
  match pc, inp with
  | S_begin, Ok _ =>
      rpc_attr "start" ;;;
      io <- rpc.request_and_read Handshake ;;
      ret (asyncio.Suspended (co_start raise_on_fail (S_start io)) (asyncio.Await io))
  | S_begin, Err e => raise e
  | S_start _, Ok _ => ret (asyncio.Returned VNone)
  | S_start _, Err e =>
      if is_invalid_pipe e then
        if raise_on_fail then raise e
        else modify (with_party (set_rpc None)) ;;; ret (asyncio.Returned VNone)
      else raise e
  end.

(** [leloop], the coroutine of [update_loop]. *)
Definition leloop_sleep (delay : Z) : M asyncio.step :=
  s <- asyncio.sleep delay ;;
  match s with
  | asyncio.Await t => ret (asyncio.Suspended (co_leloop delay (L_sleep t)) s)
  | asyncio.Yield0 => ret (asyncio.Suspended (co_leloop delay L_sleep0) s)
  end.

Definition leloop_iteration (delay : Z) : M asyncio.step :=
  r <- update_begin ;;
  match r with
  | Some io => ret (asyncio.Suspended (co_leloop delay (L_update io)) (asyncio.Await io))
  | None => leloop_sleep delay
  end.

(** [except asyncio.CancelledError: return] *)
Definition except_cancelled (e : exn) : M asyncio.step :=
  if is_cancelled e then ret (asyncio.Returned VNone) else raise e.

Definition leloop (delay : Z) (pc : leloop_pc) (inp : result value) : M asyncio.step :=
  match pc, inp with
  | L_begin, Ok _ => leloop_iteration delay
  | L_begin, Err e => raise e
  | L_update _, Ok _ => leloop_sleep delay
  | L_update _, Err e => except_cancelled e
  | L_sleep _, Ok _ => leloop_iteration delay
  | L_sleep t, Err e => asyncio.cancel_handle t ;;; except_cancelled e
  | L_sleep0, Ok _ => leloop_iteration delay
  | L_sleep0, Err e => except_cancelled e
  end.

Definition update_loop (delay : Z) : M nat :=
  t <- asyncio.create_task (co_leloop delay L_begin) ;;
  modify (with_party (set_updating_loop (Some t))) ;;;
  ret t.

Definition stop_updating_loop : M unit :=
  t <- gets (fun w => updating_loop (party w)) ;;
  match t with
  | Some t => asyncio.cancel t ;;; ret tt
  | None => ret tt
  end.

(** [on_player_join] and [on_spectate] *)
Definition on_player_join (f : func) : M func :=
  rpc_attr "register_event" ;;;
  asyncio.create_task (co_register_event "ACTIVITY_JOIN" f R_begin) ;;;
  ret f.

Definition on_spectate (f : func) : M func :=
  rpc_attr "register_event" ;;;
  asyncio.create_task (co_register_event "ACTIVITY_SPECTATE" f R_begin) ;;;
  ret f.

(** Calling [meanwhile()]: [None] for a result that is not awaitable. *)
Definition call_meanwhile (meanwhile : callback) : M (option nat) :=
  match meanwhile with
  | cb_none => ret None
  | cb_count => modify (with_calls S) ;;; ret None
  | cb_awaitable f => modify (with_calls S) ;;; ret (Some f)
  | cb_raise e => raise e
  end.

(** [meantime], the inner coroutine of [wait_for_player_join]. *)
Definition meantime_sleep (meanwhile : callback) (delay : Z) : M asyncio.step :=
  s <- asyncio.sleep delay ;;
  match s with
  | asyncio.Await t => ret (asyncio.Suspended (co_meantime meanwhile delay (M_sleep t)) s)
  | asyncio.Yield0 => ret (asyncio.Suspended (co_meantime meanwhile delay M_sleep0) s)
  end.

Definition meantime (meanwhile : callback) (delay : Z) (pc : meantime_pc)
    (inp : result value) : M asyncio.step :=
  match pc, inp with
  | M_begin, Ok _ =>
      fun w =>
        match call_meanwhile meanwhile w with
        | (Err e, w') => except_cancelled e w'
        | (Ok None, w') => meantime_sleep meanwhile delay w'
        | (Ok (Some aw), w') =>
            (* [await maybeawait]: a future that is done does not suspend *)
            match futures (loop w') !! aw with
            | Some PENDING =>
                (Ok (asyncio.Suspended (co_meantime meanwhile delay (M_await aw))
                                       (asyncio.Await aw)), w')
            | Some (FINISHED (Ok _)) => meantime_sleep meanwhile delay w'
            | Some (FINISHED (Err e)) => except_cancelled e w'
            | Some CANCELLED => except_cancelled CancelledError w'
            | None => (Err (RuntimeError "no such future"), w')
            end
        end
  | M_begin, Err e => raise e
  | M_await _, Ok _ => meantime_sleep meanwhile delay
  | M_await _, Err e => except_cancelled e
  | M_sleep _, Ok _ => ret (asyncio.Returned VNone)
  | M_sleep t, Err e => asyncio.cancel_handle t ;;; except_cancelled e
  | M_sleep0, Ok _ => ret (asyncio.Returned VNone)
  | M_sleep0, Err e => except_cancelled e
  end.

(** [wait_for_player_join]: lines 249-263, from the creation of the future
    to the suspension on it. *)
Definition wait_for_player_join_register (meanwhile : callback) (delay : Z)
    : M asyncio.step :=
  fut <- asyncio.create_future ;;
  on_player_join (handler fut) ;;;
  task <- asyncio.create_task (co_meantime meanwhile delay M_begin) ;;
  ret (asyncio.Suspended (co_wait_for_player_join meanwhile delay (W_fut fut task))
                         (asyncio.Await fut)).

Definition wait_for_player_join (meanwhile : callback) (delay : Z) (pc : wait_pc)
    (inp : result value) : M asyncio.step :=
  match pc, inp with
  | W_begin, Ok _ =>
      r <- update_begin ;;
      match r with
      | Some io =>
          ret (asyncio.Suspended (co_wait_for_player_join meanwhile delay (W_update io))
                                 (asyncio.Await io))
      | None => wait_for_player_join_register meanwhile delay
      end
  | W_update _, Ok _ => wait_for_player_join_register meanwhile delay
  | W_fut _ task, Ok secret =>
      asyncio.cancel task ;;;
      rpc_attr "unregister_event" ;;;
      io <- rpc.unregister_event_begin "ACTIVITY_JOIN" ;;
      ret (asyncio.Suspended
             (co_wait_for_player_join meanwhile delay (W_unregister secret io))
             (asyncio.Await io))
  | W_unregister secret _, Ok _ =>
      rpc.unregister_event_end "ACTIVITY_JOIN" ;;;
      ret (asyncio.Returned secret)
  | _, Err e => raise e
  end.

(** [close].  [self._rpc.close()] writes the closing message to the pipe
    and then closes the event loop, which raises when the loop is running;
    [self._rpc = None] comes after it. *)
Definition close (running : bool) : M unit :=
  stop_updating_loop ;;;
  r <- gets (fun w => _rpc (party w)) ;;
  match r with
  | Some _ =>
      modify (with_client (fun c =>
        mkClient (_events c) (sent c ++ [CloseConnection]) (reading c))) ;;;
      asyncio.close running ;;;
      modify (with_party (set_rpc None))
  | None => ret tt
  end.

End Party.

(** ** Attribute accesses by name *)

Inductive attr : Type :=
| a_party_id | a_join | a_spectate | a_state | a_details
| a_start_time | a_end_time
| a_large_image | a_large_text | a_small_image | a_small_text
| a_size | a_max.

Definition property_of (a : attr) : Party.property :=
  match a with
  | a_party_id => Party.party_id
  | a_join => Party.join
  | a_spectate => Party.spectate
  | a_state => Party.state
  | a_details => Party.details
  | a_start_time => Party.start_time
  | a_end_time => Party.end_time
  | a_large_image => Party.large_image
  | a_large_text => Party.large_text
  | a_small_image => Party.small_image
  | a_small_text => Party.small_text
  | a_size => Party.size
  | a_max => Party.max
  end.

(** ** Running the loop *)

Module scheduler.

Definition resume (c : coro) (inp : result value) : M asyncio.step :=
  match c with
  | co_leloop delay pc => Party.leloop delay pc inp
  | co_meantime meanwhile delay pc => Party.meantime meanwhile delay pc inp
  | co_register_event event f pc => rpc.register_event event f pc inp
  | co_update pc => Party.update pc inp
  | co_start raise_on_fail pc => Party.start raise_on_fail pc inp
  | co_wait_for_player_join meanwhile delay pc =>
      Party.wait_for_player_join meanwhile delay pc inp
  end.

(** What [Task.__step] resumes the coroutine with. *)
Definition step_input (t : Task) (fs : list fstate) : result value :=
  if _must_cancel t then Err CancelledError
  else match _fut_waiter t with
       | None => Ok VNone
       | Some f =>
           match fs !! f with
           | Some (FINISHED r) => r
           | Some CANCELLED => Err CancelledError
           | _ => Ok VNone
           end
       end.

(** [Task.__step] (with [__wakeup]). *)
Definition task_step (tid : nat) : M unit :=
  fun w =>
    match tasks (loop w) !! tid with
    | None => (Ok tt, w)
    | Some t =>
        if done (_state t) then (Ok tt, w)
        else
          let inp := step_input t (futures (loop w)) in
          let w1 := exec (asyncio.update_task tid
                            (fun t => mkTask (_coro t) None false (_state t))) w in
          match resume (_coro t) inp w1 with
          | (Ok (asyncio.Suspended c (asyncio.Await f)), w2) =>
              (asyncio.update_task tid (fun t => mkTask c (Some f) (_must_cancel t) (_state t)) ;;;
               s <- asyncio.state_of f ;;
               if done s then asyncio.call_soon tid else ret tt) w2
          | (Ok (asyncio.Suspended c asyncio.Yield0), w2) =>
              (asyncio.update_task tid (fun t => mkTask c None (_must_cancel t) (_state t)) ;;;
               asyncio.call_soon tid) w2
          | (Ok (asyncio.Returned v), w2) =>
              asyncio.update_task tid
                (fun t => mkTask (_coro t) None false (FINISHED (Ok v))) w2
          | (Err e, w2) =>
              asyncio.update_task tid
                (fun t => mkTask (_coro t) None false
                            (if is_cancelled e then CANCELLED else FINISHED (Err e))) w2
          end
    end.

(** Run scheduled steps, oldest first, until none is left. *)
Fixpoint run_ready (fuel : nat) (w : World) : World :=
  match fuel with
  | O => w
  | S fuel' =>
      match _ready (loop w) with
      | [] => w
      | tid :: rest =>
          run_ready fuel' (exec (task_step tid) (with_loop (set_ready rest) w))
      end
  end.

(** The timers that are due fire in order of their deadline:
    [futures._set_result_unless_cancelled]. *)
Definition fire (h : Z * nat) : M unit :=
  s <- asyncio.state_of (snd h) ;;
  match s with
  | CANCELLED => ret tt
  | _ => asyncio.set_result (snd h) VNone
  end.

Fixpoint insert_by_deadline (h : Z * nat) (hs : list (Z * nat)) : list (Z * nat) :=
  match hs with
  | [] => [h]
  | h' :: hs' => if fst h <? fst h' then h :: hs else h' :: insert_by_deadline h hs'
  end.

Definition by_deadline (hs : list (Z * nat)) : list (Z * nat) :=
  foldl (fun acc h => insert_by_deadline h acc) [] hs.

Definition elapse (dt : Z) : M unit :=
  modify (with_loop (fun l => set_time (time l + dt) l)) ;;;
  now <- gets (fun w => time (loop w)) ;;
  hs <- gets (fun w => _scheduled (loop w)) ;;
  modify (with_loop (set_scheduled (filter (fun h => now < fst h) hs))) ;;;
  fun w => (Ok tt, foldl (fun w h => exec (fire h) w) w
                         (by_deadline (filter (fun h => fst h <= now) hs))).

(** The peer answers the oldest request that is still waiting. *)
Definition reply (r : result value) : M unit :=
  rd <- gets (fun w => reading (client w)) ;;
  match rd with
  | [] => ret tt
  | f :: rest =>
      modify (with_client (fun c => mkClient (_events c) (sent c) rest)) ;;;
      s <- asyncio.state_of f ;;
      if done s then ret tt
      else match r with
           | Ok v => asyncio.set_result f v
           | Err e => asyncio.set_exception f e
           end
  end.

(** What happens to the session from outside: the clock, the peer, and the
    calls the application makes. *)
Inductive event : Type :=
| Elapse (dt : Z)
| Reply
| ReplyError (e : exn)
| Dispatch (evt : string) (data : gmap string value)
| CreateTask (c : coro)
| Cancel (tid : nat)
| SetAttr (a : attr) (v : value)
| DelAttr (a : attr)
| UpdateLoop (delay : Z)
| StopUpdatingLoop
| Close                       (* [close()] when the loop has stopped *)
| CloseWhileRunning.          (* [close()] from a coroutine or a callback *)

Definition apply_event (e : event) : M unit :=
  match e with
  | Elapse dt => elapse dt
  | Reply => reply (Ok VNone)
  | ReplyError e => reply (Err e)
  | Dispatch evt data => rpc.on_event evt data
  | CreateTask c => asyncio.create_task c ;;; ret tt
  | Cancel tid => asyncio.cancel tid ;;; ret tt
  | SetAttr a v => Party.setattr (property_of a) v
  | DelAttr a => Party.delattr (property_of a)
  | UpdateLoop delay => Party.update_loop delay ;;; ret tt
  | StopUpdatingLoop => Party.stop_updating_loop
  | Close => Party.close false
  | CloseWhileRunning => Party.close true
  end.

(** One event, then the loop runs until every task is suspended again.
    An exception raised by [apply_event] leaves the call that made it; the
    run goes on from the world it left.  For [Dispatch] that call is made
    by the transport that delivered the data, and what the transport does
    with the exception of a handler (it closes the connection) is not part
    of the embedding: properties of a handler that raises are stated on
    [rpc.on_event], not on runs. *)
Definition run_event (fuel : nat) (w : World) (e : event) : World :=
  run_ready fuel (exec (apply_event e) w).

Definition run (fuel : nat) (es : list event) (w : World) : World :=
  foldl (run_event fuel) w es.

(** The worlds a run goes through: the one reached after each event. *)
Fixpoint trace (fuel : nat) (es : list event) (w : World) : list World :=
  match es with
  | [] => []
  | e :: es' => let w' := run_event fuel w e in w' :: trace fuel es' w'
  end.

End scheduler.

(** ** Sequences of attribute accesses *)

Inductive access : Type :=
| Assign (a : attr) (v : value)    (* party.a = v *)
| Delete (a : attr).               (* del party.a *)

(** An access that raises leaves the object as it was. *)
Definition perform (self : PartyObj) (o : access) : PartyObj :=
  match o with
  | Assign a v =>
      match Party.fset (property_of a) v self with Ok self' => self' | Err _ => self end
  | Delete a =>
      match Party.fdel (property_of a) self with Ok self' => self' | Err _ => self end
  end.

Definition assigns (a : attr) (o : access) : Prop :=
  exists v, o = Assign a v.

(** The key of [_status] under which an attribute is kept. *)
Definition status_key (a : attr) : string :=
  match a with
  | a_party_id => "party_id"
  | a_join => "join"
  | a_spectate => "spectate"
  | a_state => "state"
  | a_details => "details"
  | a_start_time => "start"
  | a_end_time => "end"
  | a_large_image => "large_image"
  | a_large_text => "large_text"
  | a_small_image => "small_image"
  | a_small_text => "small_text"
  | a_size | a_max => "party_size"
  end.

(** The pair kept under ['party_size'], as the description of [size] and
    [max] has it: the first assignment to either gives both halves the
    value, a later one replaces its own half. *)
Definition track (st : option (value * value)) (o : access) : option (value * value) :=
  match o with
  | Assign a_size v => Some (v, from_option snd v st)
  | Assign a_max v => Some (from_option fst v st, v)
  | _ => st
  end.

Definition stored_pair (self : PartyObj) : option value :=
  _status self !! "party_size".

Definition as_list (st : option (value * value)) : option value :=
  (fun ab => VList [fst ab; snd ab]) <$> st.

(** ** Scenarios *)

(** The example of the module's docstring: a new session on which [state],
    [id], [join], [size] and [max] are assigned and that is then awaited
    ([await party] is [await party.update()]). *)
Definition lobby (pid : Z) : World :=
  scheduler.run 10
    [scheduler.SetAttr a_state (VStr "Looking for Players");
     scheduler.SetAttr a_party_id (VInt 42);
     scheduler.SetAttr a_join (VStr "abc");
     scheduler.SetAttr a_size (VInt 1);
     scheduler.SetAttr a_max (VInt 4);
     scheduler.CreateTask (co_update U_begin)]
    (Party.__init__ pid).

(** The snapshots handed to [set_activity] so far, oldest first. *)
Definition transmitted (w : World) : list (gmap string value) :=
  omap (fun r => match r with SetActivity m => Some m | _ => None end) (sent (client w)).

(** The peer reports that the user asked to join a party. *)
Definition join_request (data : gmap string value) : scheduler.event :=
  scheduler.Dispatch "ACTIVITY_JOIN" data.

Definition ticks (n : nat) (dt : Z) : list scheduler.event :=
  replicate n (scheduler.Elapse dt).

(** [wait_for_player_join(meanwhile, delay)] is called on a new session and
    the peer has answered the status push: the caller is suspended on the
    future. *)
Definition wait_called (pid : Z) (meanwhile : callback) (delay : Z) : World :=
  scheduler.run 20
    [scheduler.CreateTask (co_wait_for_player_join meanwhile delay W_begin);
     scheduler.Reply]
    (Party.__init__ pid).

(** ... and the peer has answered the subscription as well. *)
Definition wait_registered (pid : Z) (meanwhile : callback) (delay : Z) : World :=
  scheduler.run_event 20 (wait_called pid meanwhile delay) scheduler.Reply.

(** A wait with a counting callback every 0.5 s; the join request arrives
    after 1.6 s of simulated time, in steps of 0.1 s. *)
Definition counting_wait_at (n : nat) : World :=
  scheduler.run 20 (ticks n 100) (wait_registered 7 cb_count 500).

Definition counting_wait_joined : World :=
  scheduler.run_event 20 (counting_wait_at 16)
    (join_request {[ "secret" := VStr "s3cr3t" ]}).

Definition counting_wait_afterwards : World :=
  scheduler.run 20 (scheduler.Reply :: ticks 20 100) counting_wait_joined.

(** [start(raise_on_fail)] on a new session when the pipe is unavailable. *)
Definition failed_start (pid : Z) (raise_on_fail : bool) : World :=
  scheduler.run 20
    [scheduler.CreateTask (co_start raise_on_fail S_begin);
     scheduler.ReplyError InvalidPipe]
    (Party.__init__ pid).

(** The state of a task, [None] for an index that is no task. *)
Definition task_state (w : World) (tid : nat) : option fstate :=
  _state <$> tasks (loop w) !! tid.

Definition task_coro (w : World) (tid : nat) : option coro :=
  _coro <$> tasks (loop w) !! tid.

(** The [leloop] tasks that have not finished. *)
Definition is_leloop (c : coro) : bool :=
  match c with co_leloop _ _ => true | _ => false end.

Definition active_update_loops (w : World) : list nat :=
  omap (fun '(tid, t) =>
          if (is_leloop (_coro t) && negb (done (_state t)))%bool then Some tid else None)
       (imap pair (tasks (loop w))).

(** At most one request is waiting for the peer's answer, in each of the
    worlds. *)
Definition one_request_at_a_time (ws : list World) : bool :=
  forallb (fun w => (length (reading (client w)) <=? 1)%nat) ws.

(** [update_loop(0.5)] is called on a new session and, 0.1 s later, while
    that loop sleeps, once more; then 0.6 s pass, the peer answering every
    push before the next one is made. *)
Definition second_update_loop : list scheduler.event :=
  [scheduler.UpdateLoop 500; scheduler.Reply; scheduler.Elapse 100;
   scheduler.UpdateLoop 500; scheduler.Reply].

Definition both_loops_push : list scheduler.event :=
  [scheduler.Elapse 400; scheduler.Reply; scheduler.Elapse 100; scheduler.Reply].

(** [update_loop] is called twice on a session whose [start] has failed. *)
Definition two_update_loops_without_client (pid : Z) (d1 d2 : Z) : World :=
  scheduler.run 20 [scheduler.UpdateLoop d1; scheduler.UpdateLoop d2]
    (failed_start pid false).

(** The caller cancels the wait 0.1 s after the registration, before any
    join request. *)
Definition cancelled_wait : World :=
  scheduler.run 20 [scheduler.Elapse 100; scheduler.Cancel 0]
    (wait_registered 7 cb_count 500).

(** The join request with secret [s] arrives after [n] steps of 0.1 s and
    the peer answers the unsubscription. *)
Definition counting_wait_joined_at (n : nat) (s : value) : World :=
  scheduler.run 20 [join_request {[ "secret" := s ]}; scheduler.Reply]
    (counting_wait_at n).

(** A new session after a sequence of attribute accesses. *)
Definition after_accesses (pid : Z) (ops : list access) : PartyObj :=
  foldl perform (party (Party.__init__ pid)) ops.

(** ** Predicates used in the proofs *)

(** A computation that never turns a session without client into one with
    a client. *)
Definition keeps {A} (m : M A) : Prop :=
  forall w, _rpc (party w) = None -> _rpc (party (snd (m w))) = None.

(** A computation that keeps a property of the world. *)
Definition preserves (P : World -> Prop) {A} (m : M A) : Prop :=
  forall w, P w -> P (snd (m w)).

(** The events by which the application assigns or deletes an attribute. *)
Definition is_access (e : scheduler.event) : bool :=
  match e with
  | scheduler.SetAttr _ _ | scheduler.DelAttr _ => true
  | _ => false
  end.

(** The keys the status mapping is created with or given by an accessor. *)
Definition status_keys : list string :=
  ["pid"; "party_id"; "join"; "spectate"; "state"; "details"; "start"; "end";
   "large_image"; "large_text"; "small_image"; "small_text"; "party_size"].

(** A status mapping as the accessors leave it: the process id of the
    constructor, no key but those of the accessors, and under
    ['party_size'] a list of two. *)
Definition well_formed_status (pid : Z) (st : gmap string value) : Prop :=
  st !! "pid" = Some (VInt pid) /\
  (forall k, is_Some (st !! k) -> k ∈ status_keys) /\
  (forall v, st !! "party_size" = Some v -> exists a b, v = VList [a; b]).

(** The status of the session and every snapshot transmitted so far are
    well formed. *)
Definition session_invariant (pid : Z) (w : World) : Prop :=
  well_formed_status pid (_status (party w)) /\
  Forall (well_formed_status pid) (transmitted w).

(** The attribute an access is about. *)
Definition accessed (o : access) : attr :=
  match o with Assign a _ | Delete a => a end.

(** One period of the update loop as the environment sees it: the delay
    passes, then the peer answers the push. *)
Definition period (delay : Z) : list scheduler.event :=
  [scheduler.Elapse delay; scheduler.Reply].

Fixpoint periods (n : nat) (delay : Z) : list scheduler.event :=
  match n with
  | O => []
  | S n' => (period delay ++ periods n' delay)%list
  end.

(** The update loop is the only task and sleeps until its next push. *)
Definition asleep (delay : Z) (st : gmap string value) (w : World) : Prop :=
  exists t,
    tasks (loop w) = [mkTask (co_leloop delay (L_sleep t)) (Some t) false PENDING] /\
    futures (loop w) !! t = Some PENDING /\
    _scheduled (loop w) = [(time (loop w) + delay, t)] /\
    _ready (loop w) = [] /\
    reading (client w) = [] /\
    _rpc (party w) = Some the_client /\
    _status (party w) = st.

(** The update loop is the only task and waits for the answer to a push. *)
Definition pushing (delay : Z) (st : gmap string value) (w : World) : Prop :=
  exists io,
    tasks (loop w) = [mkTask (co_leloop delay (L_update io)) (Some io) false PENDING] /\
    futures (loop w) !! io = Some PENDING /\
    _scheduled (loop w) = [] /\
    _ready (loop w) = [] /\
    reading (client w) = [io] /\
    _rpc (party w) = Some the_client /\
    _status (party w) = st.

(** [wait_for_player_join] is called on a new session and, when the peer
    has answered its status push and its subscription and the call is
    suspended on its future, it is called once more; the peer answers the
    status push and the subscription of the second call as well. *)
Definition two_waits_events (delay : Z) : list scheduler.event :=
  [scheduler.CreateTask (co_wait_for_player_join cb_none delay W_begin);
   scheduler.Reply; scheduler.Reply;
   scheduler.CreateTask (co_wait_for_player_join cb_none delay W_begin);
   scheduler.Reply; scheduler.Reply].

Definition two_waits (pid : Z) (delay : Z) : World :=
  scheduler.run 20 (two_waits_events delay) (Party.__init__ pid).

(** [on_player_join(f)] on a new session and the peer's answer to the
    subscription, then [on_spectate(g)] and the answer to that one. *)
Definition join_registered (pid : Z) (f : func) : World :=
  scheduler.run_event 20
    (scheduler.run_ready 20 (exec (Party.on_player_join f) (Party.__init__ pid)))
    scheduler.Reply.

Definition spectate_requested (pid : Z) (f g : func) : World :=
  scheduler.run_ready 20 (exec (Party.on_spectate g) (join_registered pid f)).

Definition both_registered (pid : Z) (f g : func) : World :=
  scheduler.run_event 20 (spectate_requested pid f g) scheduler.Reply.

(** * Properties *)

Section StatusKeys.

Lemma perform_other_key (self : PartyObj) (o : access) (k : string) :
  (forall a v, o = Assign a v -> status_key a <> k) ->
  _status self !! k = None ->
  _status (perform self o) !! k = None.
Proof.
  intros Hk Hnone. destruct o as [a v | a].
  - specialize (Hk a v eq_refl).
    destruct a; cbn in *;
      try (rewrite lookup_insert_ne; [exact Hnone | exact Hk]);
      unfold Party.party_size_set;
      destruct (_status self !! "party_size") as [l|] eqn:E; cbn;
      try (rewrite lookup_insert_ne; [exact Hnone | exact Hk]);
      destruct (setitem l _ v); cbn;
      try (rewrite lookup_insert_ne; [exact Hnone | exact Hk]); exact Hnone.
  - destruct a; cbn;
      try (match goal with
           | |- context [ _status self !! ?key ] =>
               destruct (_status self !! key) eqn:E; cbn; [| exact Hnone];
               destruct (decide (key = k)) as [->|Hne];
                 [apply lookup_delete_eq | rewrite lookup_delete_ne; [exact Hnone | exact Hne]]
           end); exact Hnone.
Qed.

Lemma perform_all_other_key (ops : list access) (self : PartyObj) (k : string) :
  (forall a v, Assign a v ∈ ops -> status_key a <> k) ->
  _status self !! k = None ->
  _status (foldl perform self ops) !! k = None.
Proof.
  revert self. induction ops as [| o ops IH]; intros self Hk Hnone; [exact Hnone |].
  cbn. apply IH.
  - intros a v Hin. apply (Hk a v). now apply list_elem_of_further.
  - apply perform_other_key; [| exact Hnone].
    intros a v ->. apply (Hk a v). apply list_elem_of_here.
Qed.

Lemma status_key_shared (a b : attr) :
  status_key a = status_key b ->
  a = b \/ (status_key a = "party_size").
Proof. destruct a, b; cbn; intros H; try discriminate H; auto. Qed.

End StatusKeys.

Section UnsetReads.

Variable pid : Z.
Variable ops : list access.


Lemma fresh_key_absent (k : string) :
  k <> "pid" -> _status (party (Party.__init__ pid)) !! k = None.
Proof. intros Hk. cbn. apply lookup_singleton_ne. congruence. Qed.

Lemma never_assigned_absent (a : attr) :
  (forall b, status_key b = status_key a -> forall o, o ∈ ops -> ~ assigns b o) ->
  _status (after_accesses pid ops) !! status_key a = None.
Proof.
  intros Hnever. unfold after_accesses. apply perform_all_other_key.
  - intros b v Hin Heq. apply (Hnever b Heq _ Hin). now exists v.
  - apply fresh_key_absent. destruct a; discriminate.
Qed.

(** C10: on a session on which neither [size] nor [max] has ever been
    assigned, reading [size] or [max] raises [KeyError('party_size')];
    reading any of the other eleven status attributes that has never been
    assigned returns [None] and raises nothing, whether or not [size] or
    [max] has been assigned. *)
Theorem C10_read_before_set :
  ((forall o, o ∈ ops -> ~ assigns a_size o /\ ~ assigns a_max o) ->
   Party.fget Party.size (after_accesses pid ops) = Err (KeyError "party_size") /\
   Party.fget Party.max (after_accesses pid ops) = Err (KeyError "party_size")) /\
  (forall a, a <> a_size -> a <> a_max ->
     (forall o, o ∈ ops -> ~ assigns a o) ->
     Party.fget (property_of a) (after_accesses pid ops) = Ok VNone).
Proof.
  split.
  - intros Hsz.
    assert (Hps : _status (after_accesses pid ops) !! "party_size" = None).
    { apply (never_assigned_absent a_size).
      intros b Hb o Hin. destruct (Hsz o Hin) as [H0 H1].
      destruct b; try discriminate Hb; assumption. }
    split; cbn; unfold Party.party_size_get; now rewrite Hps.
  - intros a Ha0 Ha1 Hnever.
    assert (Hk : _status (after_accesses pid ops) !! status_key a = None).
    { apply never_assigned_absent. intros b Hb o Hin.
      destruct (status_key_shared _ _ Hb) as [-> | Hshared]; [now apply Hnever |].
      rewrite Hb in Hshared. destruct a; try discriminate Hshared; congruence. }
    destruct a; try congruence; cbn in *; now rewrite Hk.
Qed.

End UnsetReads.

Lemma C10_read_before_set_witness :
  (let self := after_accesses 7 [Assign a_state (VStr "idle"); Delete a_join] in
   Party.fget Party.size self = Err (KeyError "party_size") /\
   Party.fget Party.max self = Err (KeyError "party_size")) /\
  (let self := after_accesses 7 [Assign a_size (VInt 2); Assign a_state (VStr "idle")] in
   Party.fget Party.size self = Ok (VInt 2) /\
   Party.fget Party.details self = Ok VNone).
Proof.
  split.
  - apply (proj1 (C10_read_before_set 7 [Assign a_state (VStr "idle"); Delete a_join])).
    intros o Hin. apply list_elem_of_In in Hin. cbn in Hin.
    split; intros [v ->]; destruct Hin as [Heq | [Heq | []]]; discriminate Heq.
  - split; [reflexivity |].
    apply (proj2 (C10_read_before_set 7
                    [Assign a_size (VInt 2); Assign a_state (VStr "idle")]) a_details);
      try discriminate.
    intros o Hin [v ->]. apply list_elem_of_In in Hin. cbn in Hin.
    destruct Hin as [Heq | [Heq | []]]; discriminate Heq.
Defined.

Section SizeMax.

Lemma perform_tracks (self : PartyObj) (st : option (value * value)) (o : access) :
  stored_pair self = as_list st ->
  stored_pair (perform self o) = as_list (track st o).
Proof.
  unfold stored_pair. intros Hrep.
  assert (Hother : forall k v, k <> "party_size" ->
            _status (Party.set_status (<[k:=v]> (_status self)) self) !! "party_size"
            = as_list st).
  { intros k v Hk. cbn. rewrite lookup_insert_ne; [exact Hrep | exact Hk]. }
  destruct o as [a v | a].
  - destruct a; cbn [perform property_of track];
      try (apply Hother; discriminate).
    + cbn. unfold Party.party_size_set. rewrite Hrep.
      destruct st as [[x y]|]; cbn; now rewrite lookup_insert_eq.
    + cbn. unfold Party.party_size_set. rewrite Hrep.
      destruct st as [[x y]|]; cbn; now rewrite lookup_insert_eq.
  - destruct a; cbn [perform property_of track]; try exact Hrep;
      cbn;
      match goal with
      | |- context [ match _status self !! ?key with _ => _ end ] =>
          destruct (_status self !! key); cbn; [| exact Hrep];
          rewrite lookup_delete_ne; [exact Hrep | discriminate]
      end.
Qed.

Lemma perform_all_tracks (ops : list access) (self : PartyObj) (st : option (value * value)) :
  stored_pair self = as_list st ->
  stored_pair (foldl perform self ops) = as_list (foldl track st ops).
Proof.
  revert self st. induction ops as [| o ops IH]; intros self st Hrep; [exact Hrep |].
  cbn. apply IH. now apply perform_tracks.
Qed.

Lemma track_keeps_size (post : list access) (a b : value) :
  (forall o, o ∈ post -> ~ assigns a_size o) ->
  exists b', foldl track (Some (a, b)) post = Some (a, b').
Proof.
  revert b. induction post as [| o post IH]; intros b Hno; [now exists b |].
  assert (Hpost : forall o', o' ∈ post -> ~ assigns a_size o').
  { intros o' Hin. apply Hno. now apply list_elem_of_further. }
  assert (Ho : ~ assigns a_size o) by (apply Hno; apply list_elem_of_here).
  destruct o as [[] v | x]; cbn; try (now apply IH).
  exfalso. apply Ho. now exists v.
Qed.

Lemma track_keeps_max (post : list access) (a b : value) :
  (forall o, o ∈ post -> ~ assigns a_max o) ->
  exists a', foldl track (Some (a, b)) post = Some (a', b).
Proof.
  revert a. induction post as [| o post IH]; intros a Hno; [now exists a |].
  assert (Hpost : forall o', o' ∈ post -> ~ assigns a_max o').
  { intros o' Hin. apply Hno. now apply list_elem_of_further. }
  assert (Ho : ~ assigns a_max o) by (apply Hno; apply list_elem_of_here).
  destruct o as [[] v | x]; cbn; try (now apply IH).
  exfalso. apply Ho. now exists v.
Qed.

Lemma read_size (self : PartyObj) (a b : value) :
  stored_pair self = Some (VList [a; b]) ->
  Party.fget Party.size self = Ok a /\ Party.fget Party.max self = Ok b.
Proof.
  unfold stored_pair. intros H. cbn. unfold Party.party_size_get. now rewrite H.
Qed.

Variable self : PartyObj.
Hypothesis unset : _status self !! "party_size" = None.

(** C6: on a session on which ['party_size'] is not yet stored, the first
    assignment to [size] or to [max] stores the pair [[v, v]]; once a pair
    [[a, b]] is stored, assigning [size] replaces only [a] and assigning
    [max] only [b]; after any sequence of accesses, [size] (resp. [max])
    reads the value of its most recent assignment; [size = 5] then
    [max = 10] leaves [[5, 10]], and [max = 10] alone [[10, 10]]. *)
Theorem C6_size_max_pair :
  (forall v, stored_pair (perform self (Assign a_size v)) = Some (VList [v; v]) /\
             stored_pair (perform self (Assign a_max v)) = Some (VList [v; v])) /\
  (forall ops a b v,
     stored_pair (foldl perform self ops) = Some (VList [a; b]) ->
     stored_pair (foldl perform self (ops ++ [Assign a_size v])) = Some (VList [v; b]) /\
     stored_pair (foldl perform self (ops ++ [Assign a_max v])) = Some (VList [a; v])) /\
  (forall pre v post,
     (forall o, o ∈ post -> ~ assigns a_size o) ->
     Party.fget Party.size (foldl perform self (pre ++ Assign a_size v :: post)) = Ok v) /\
  (forall pre v post,
     (forall o, o ∈ post -> ~ assigns a_max o) ->
     Party.fget Party.max (foldl perform self (pre ++ Assign a_max v :: post)) = Ok v) /\
  stored_pair (foldl perform self [Assign a_size (VInt 5); Assign a_max (VInt 10)])
    = Some (VList [VInt 5; VInt 10]) /\
  stored_pair (foldl perform self [Assign a_max (VInt 10)])
    = Some (VList [VInt 10; VInt 10]).
Proof.
  assert (Hrep : stored_pair self = as_list None) by exact unset.
  assert (Hall : forall ops,
            stored_pair (foldl perform self ops) = as_list (foldl track None ops)).
  { intros ops. now apply perform_all_tracks. }
  repeat split.
  - now rewrite (perform_tracks self None _ Hrep).
  - now rewrite (perform_tracks self None _ Hrep).
  - rewrite foldl_app. cbn [foldl].
    rewrite (perform_tracks _ (Some (a, b)) _ H). reflexivity.
  - rewrite foldl_app. cbn [foldl].
    rewrite (perform_tracks _ (Some (a, b)) _ H). reflexivity.
  - intros pre v post Hno.
    pose proof (Hall (pre ++ Assign a_size v :: post)%list) as Hst.
    rewrite (foldl_app track) in Hst. cbn [foldl track] in Hst.
    destruct (track_keeps_size post v (from_option snd v (foldl track None pre)) Hno)
      as [b' Hb'].
    rewrite Hb' in Hst. apply (read_size _ _ _ Hst).
  - intros pre v post Hno.
    pose proof (Hall (pre ++ Assign a_max v :: post)%list) as Hst.
    rewrite (foldl_app track) in Hst. cbn [foldl track] in Hst.
    destruct (track_keeps_max post (from_option fst v (foldl track None pre)) v Hno)
      as [a' Ha'].
    rewrite Ha' in Hst. apply (read_size _ _ _ Hst).
  - now rewrite Hall.
  - now rewrite Hall.
Qed.

End SizeMax.

Lemma C6_size_max_pair_witness :
  let fresh := party (Party.__init__ 7) in
  Party.fget Party.size
    (foldl perform fresh [Assign a_max (VInt 10); Assign a_size (VInt 5);
                          Assign a_max (VInt 8)]) = Ok (VInt 5) /\
  stored_pair (foldl perform fresh [Assign a_size (VInt 5); Assign a_max (VInt 10)])
    = Some (VList [VInt 5; VInt 10]) /\
  stored_pair (foldl perform fresh [Assign a_max (VInt 10)])
    = Some (VList [VInt 10; VInt 10]).
Proof.
  assert (Hfresh : _status (party (Party.__init__ 7)) !! "party_size" = None)
    by reflexivity.
  destruct (C6_size_max_pair (party (Party.__init__ 7)) Hfresh)
    as (_ & _ & Hsize & _ & H510 & H10).
  split; [| split; [exact H510 | exact H10]].
  apply (Hsize [Assign a_max (VInt 10)] (VInt 5) [Assign a_max (VInt 8)]).
  intros o Hin [v ->]. apply list_elem_of_In in Hin. cbn in Hin.
  destruct Hin as [Heq | []]. discriminate Heq.
Defined.

Section Snapshot.

(** C4 (as stated, refuted): the snapshot transmitted in the scenario has a
    key, ['pid'], that is none of the five assigned attributes, whether
    these are named as attributes or as the keys they are stored under. *)
Lemma C4_snapshot_has_pid :
  ~ (forall m k, m ∈ transmitted (lobby 7) -> is_Some (m !! k) ->
       k ∈ ["state"; "id"; "party_id"; "join"; "size"; "max"; "party_size"]).
Proof.
  intros Hclaim.
  specialize (Hclaim {[ "pid" := VInt 7; "state" := VStr "Looking for Players";
                        "party_id" := VInt 42; "join" := VStr "abc";
                        "party_size" := VList [VInt 1; VInt 4] ]} "pid").
  assert (Hin : "pid" ∈ ["state"; "id"; "party_id"; "join"; "size"; "max"; "party_size"]).
  { apply Hclaim.
    - vm_compute. apply list_elem_of_here.
    - now exists (VInt 7). }
  apply list_elem_of_In in Hin. cbn in Hin.
  repeat (destruct Hin as [Hin | Hin]; [discriminate Hin |]). exact Hin.
Qed.

(** C4 (amended): the one snapshot transmitted holds the process id stored
    at construction together with the assigned attributes, five entries in
    all: [pid], [state], [party_id = 42], [join = 'abc'] and the single
    pair [party_size = [1, 4]] for [size] and [max]. *)
Theorem C4_snapshot (pid : Z) :
  transmitted (lobby pid)
  = [ {[ "pid" := VInt pid; "state" := VStr "Looking for Players";
         "party_id" := VInt 42; "join" := VStr "abc";
         "party_size" := VList [VInt 1; VInt 4] ]} ] /\
  forall m, m ∈ transmitted (lobby pid) ->
    dom m = {[ "pid"; "state"; "party_id"; "join"; "party_size" ]} /\
    size m = 5%nat.
Proof.
  assert (Heq : transmitted (lobby pid)
    = [ {[ "pid" := VInt pid; "state" := VStr "Looking for Players";
         "party_id" := VInt 42; "join" := VStr "abc";
         "party_size" := VList [VInt 1; VInt 4] ]} ]).
  { vm_compute. reflexivity. }
  split; [exact Heq |].
  intros m Hin. rewrite Heq in Hin. apply list_elem_of_singleton in Hin. subst m.
  split.
  - rewrite !dom_insert_L, dom_singleton_L. set_solver.
  - vm_compute. reflexivity.
Qed.

End Snapshot.

Lemma C4_snapshot_witness :
  exists m, transmitted (lobby 7) = [m] /\ m !! "pid" = Some (VInt 7) /\
            m !! "party_id" = Some (VInt 42) /\ size m = 5%nat.
Proof.
  destruct (C4_snapshot 7) as [Heq Hdom].
  eexists. split; [exact Heq |].
  split; [reflexivity |]. split; [reflexivity |].
  eapply Hdom. rewrite Heq. apply list_elem_of_here.
Defined.

(** ** What no operation does: giving the session a client again *)

Section StaysDisconnected.

Create HintDb keeps.

Lemma keeps_ret {A} (a : A) : keeps (ret a).
Proof. intros w H. exact H. Qed.
#[local] Hint Resolve keeps_ret : keeps.

Lemma keeps_raise {A} (e : exn) : keeps (@raise A e).
Proof. intros w H. exact H. Qed.
#[local] Hint Resolve keeps_raise : keeps.

Lemma keeps_gets {A} (f : World -> A) : keeps (gets f).
Proof. intros w H. exact H. Qed.
#[local] Hint Resolve keeps_gets : keeps.

Lemma keeps_bind {A B} (m : M A) (k : A -> M B) :
  keeps m -> (forall a, keeps (k a)) -> keeps (bind m k).
Proof.
  intros Hm Hk w H. unfold bind. specialize (Hm w H).
  destruct (m w) as [[a | e] w']; cbn in *; [now apply Hk | exact Hm].
Qed.
#[local] Hint Resolve keeps_bind : keeps.

Lemma keeps_modify (f : World -> World) :
  (forall w, _rpc (party (f w)) = _rpc (party w)) -> keeps (modify f).
Proof. intros Hf w H. cbn. now rewrite Hf. Qed.
#[local] Hint Resolve keeps_modify : keeps.

Lemma keeps_if {A} (b : bool) (m1 m2 : M A) :
  keeps m1 -> keeps m2 -> keeps (if b then m1 else m2).
Proof. now destruct b. Qed.
#[local] Hint Resolve keeps_if : keeps.

Ltac keeps_step :=
  first
    [ apply keeps_ret | apply keeps_raise | apply keeps_gets
    | apply keeps_modify; intros; reflexivity
    | apply keeps_bind; [| intros ?]
    | apply keeps_if
    | match goal with
      | |- keeps (match ?x with _ => _ end) => destruct x
      end ].

Ltac keeps_auto := repeat keeps_step; auto with keeps nocore.

Lemma keeps_settle f s : keeps (asyncio.settle f s).
Proof. unfold asyncio.settle, asyncio.schedule_callbacks. keeps_auto. Qed.
#[local] Hint Resolve keeps_settle : keeps.

Lemma keeps_state_of f : keeps (asyncio.state_of f).
Proof. unfold asyncio.state_of. keeps_auto. Qed.
#[local] Hint Resolve keeps_state_of : keeps.

Lemma keeps_set_result f v : keeps (asyncio.set_result f v).
Proof.
  unfold asyncio.set_result. keeps_auto.
Qed.
#[local] Hint Resolve keeps_set_result : keeps.

Lemma keeps_set_exception f e : keeps (asyncio.set_exception f e).
Proof.
  unfold asyncio.set_exception. keeps_auto.
Qed.
#[local] Hint Resolve keeps_set_exception : keeps.

Lemma keeps_cancel_future f : keeps (asyncio.cancel_future f).
Proof.
  unfold asyncio.cancel_future. keeps_auto.
Qed.
#[local] Hint Resolve keeps_cancel_future : keeps.

Lemma keeps_update_task tid g : keeps (asyncio.update_task tid g).
Proof. unfold asyncio.update_task. keeps_auto. Qed.
#[local] Hint Resolve keeps_update_task : keeps.

Lemma keeps_cancel tid : keeps (asyncio.cancel tid).
Proof.
  unfold asyncio.cancel. keeps_auto.
Qed.
#[local] Hint Resolve keeps_cancel : keeps.

Lemma keeps_create_future : keeps asyncio.create_future.
Proof. intros w H. exact H. Qed.
#[local] Hint Resolve keeps_create_future : keeps.

Lemma keeps_create_task c : keeps (asyncio.create_task c).
Proof. intros w H. exact H. Qed.
#[local] Hint Resolve keeps_create_task : keeps.

Lemma keeps_call_soon tid : keeps (asyncio.call_soon tid).
Proof. unfold asyncio.call_soon. keeps_auto. Qed.
#[local] Hint Resolve keeps_call_soon : keeps.

Lemma keeps_sleep delay : keeps (asyncio.sleep delay).
Proof. unfold asyncio.sleep. keeps_auto. Qed.
#[local] Hint Resolve keeps_sleep : keeps.

Lemma keeps_cancel_handle f : keeps (asyncio.cancel_handle f).
Proof. unfold asyncio.cancel_handle. keeps_auto. Qed.
#[local] Hint Resolve keeps_cancel_handle : keeps.

Lemma keeps_request_and_read r : keeps (rpc.request_and_read r).
Proof. unfold rpc.request_and_read. keeps_auto. Qed.
#[local] Hint Resolve keeps_request_and_read : keeps.

Lemma keeps_register_event event f pc inp : keeps (rpc.register_event event f pc inp).
Proof.
  unfold rpc.register_event. destruct pc, inp; keeps_auto.
Qed.
#[local] Hint Resolve keeps_register_event : keeps.

Lemma keeps_on_event evt data : keeps (rpc.on_event evt data).
Proof.
  unfold rpc.on_event, rpc.call. keeps_auto.
Qed.
#[local] Hint Resolve keeps_on_event : keeps.

Lemma keeps_rpc_attr attr : keeps (Party.rpc_attr attr).
Proof. unfold Party.rpc_attr. keeps_auto. Qed.
#[local] Hint Resolve keeps_rpc_attr : keeps.

Lemma keeps_update_begin : keeps Party.update_begin.
Proof. unfold Party.update_begin. keeps_auto. Qed.
#[local] Hint Resolve keeps_update_begin : keeps.

Lemma keeps_except_cancelled e : keeps (Party.except_cancelled e).
Proof. unfold Party.except_cancelled. keeps_auto. Qed.
#[local] Hint Resolve keeps_except_cancelled : keeps.

Lemma keeps_leloop_sleep delay : keeps (Party.leloop_sleep delay).
Proof. unfold Party.leloop_sleep. keeps_auto. Qed.
#[local] Hint Resolve keeps_leloop_sleep : keeps.

Lemma keeps_leloop_iteration delay : keeps (Party.leloop_iteration delay).
Proof.
  unfold Party.leloop_iteration. keeps_auto.
Qed.
#[local] Hint Resolve keeps_leloop_iteration : keeps.

Lemma keeps_meantime_sleep m delay : keeps (Party.meantime_sleep m delay).
Proof. unfold Party.meantime_sleep. keeps_auto. Qed.
#[local] Hint Resolve keeps_meantime_sleep : keeps.

Lemma keeps_call_meanwhile m : keeps (Party.call_meanwhile m).
Proof. unfold Party.call_meanwhile. keeps_auto. Qed.
#[local] Hint Resolve keeps_call_meanwhile : keeps.

Lemma keeps_set_rpc_None : keeps (modify (with_party (Party.set_rpc None))).
Proof. intros w H. reflexivity. Qed.
#[local] Hint Resolve keeps_set_rpc_None : keeps.

Lemma keeps_resume c inp : keeps (scheduler.resume c inp).
Proof.
  destruct c as [delay pc | m delay pc | event f pc | pc | rof pc | m delay pc]; cbn.
  - unfold Party.leloop. destruct pc, inp; keeps_auto.
  - unfold Party.meantime. destruct pc, inp; keeps_auto.
    intros w H. pose proof (keeps_call_meanwhile m w H) as Hc.
    destruct (Party.call_meanwhile m w) as [[[aw |] | e] w']; cbn in Hc.
    + destruct (futures (loop w') !! aw) as [[| | [v | e]] |]; try exact Hc;
        first [now apply keeps_meantime_sleep | now apply keeps_except_cancelled].
    + now apply keeps_meantime_sleep.
    + now apply keeps_except_cancelled.
  - apply keeps_register_event.
  - unfold Party.update. destruct pc, inp; keeps_auto.
  - unfold Party.start. destruct pc, inp; keeps_auto.
  - unfold Party.wait_for_player_join, Party.wait_for_player_join_register,
      Party.on_player_join, rpc.unregister_event_begin, rpc.unregister_event_end.
    destruct pc, inp; keeps_auto.
Qed.
#[local] Hint Resolve keeps_resume : keeps.

Lemma keeps_task_step tid : keeps (scheduler.task_step tid).
Proof.
  intros w H. unfold scheduler.task_step.
  destruct (tasks (loop w) !! tid) as [t |]; [| exact H].
  destruct (done (_state t)); [exact H |].
  match goal with
  | |- context [scheduler.resume ?c ?i ?w1] =>
      pose proof (keeps_resume c i w1 H) as Hr;
      destruct (scheduler.resume c i w1) as [[[c' [f |] | v] | e] w2]
  end; cbn in Hr.
  - revert w2 Hr.
    change (keeps (asyncio.update_task tid
                     (fun t0 => mkTask c' (Some f) (_must_cancel t0) (_state t0)) ;;;
                   s <- asyncio.state_of f ;;
                   if done s then asyncio.call_soon tid else ret tt)).
    keeps_auto.
  - exact Hr.
  - exact Hr.
  - exact Hr.
Qed.
#[local] Hint Resolve keeps_task_step : keeps.

Lemma run_ready_disconnected (fuel : nat) (w : World) :
  _rpc (party w) = None -> _rpc (party (scheduler.run_ready fuel w)) = None.
Proof.
  revert w. induction fuel as [| fuel IH]; intros w H; [exact H |].
  cbn. destruct (_ready (loop w)) as [| tid rest]; [exact H |].
  apply IH. now apply keeps_task_step.
Qed.

Lemma keeps_setattr a v : keeps (Party.setattr (property_of a) v).
Proof.
  intros w H. unfold Party.setattr.
  destruct a; cbn; try exact H;
    unfold Party.party_size_set;
    destruct (_status (party w) !! "party_size") as [l |]; cbn; try exact H;
    destruct (setitem l _ v); exact H.
Qed.
#[local] Hint Resolve keeps_setattr : keeps.

Lemma keeps_delattr a : keeps (Party.delattr (property_of a)).
Proof.
  intros w H. unfold Party.delattr.
  destruct a; cbn; try exact H;
    match goal with
    | |- context [ _status (party w) !! ?k ] => destruct (_status (party w) !! k)
    end; exact H.
Qed.
#[local] Hint Resolve keeps_delattr : keeps.

Lemma keeps_elapse dt : keeps (scheduler.elapse dt).
Proof.
  unfold scheduler.elapse. keeps_auto.
  intros w H. cbn.
  match goal with |- context [foldl _ w ?hs] => generalize hs end.
  intros hs. revert w H. induction hs as [| h hs IH]; intros w H; [exact H |].
  cbn. apply IH.
  assert (Hf : keeps (scheduler.fire h)).
  { unfold scheduler.fire. keeps_auto. }
  now apply Hf.
Qed.
#[local] Hint Resolve keeps_elapse : keeps.

Lemma keeps_reply r : keeps (scheduler.reply r).
Proof.
  unfold scheduler.reply. keeps_auto.
Qed.
#[local] Hint Resolve keeps_reply : keeps.

Lemma keeps_stop_updating_loop : keeps Party.stop_updating_loop.
Proof. unfold Party.stop_updating_loop. keeps_auto. Qed.
#[local] Hint Resolve keeps_stop_updating_loop : keeps.

Lemma keeps_apply_event e : keeps (scheduler.apply_event e).
Proof.
  destruct e; cbn.
  - apply keeps_elapse.
  - apply keeps_reply.
  - apply keeps_reply.
  - apply keeps_on_event.
  - keeps_auto.
  - keeps_auto.
  - apply keeps_setattr.
  - apply keeps_delattr.
  - unfold Party.update_loop. keeps_auto.
  - apply keeps_stop_updating_loop.
  - unfold Party.close, asyncio.close. keeps_auto.
  - unfold Party.close, asyncio.close. keeps_auto.
Qed.
#[local] Hint Resolve keeps_apply_event : keeps.

(** Once [_rpc] is [None] it stays [None], whatever happens next. *)
Lemma run_disconnected (fuel : nat) (es : list scheduler.event) (w : World) :
  _rpc (party w) = None -> _rpc (party (scheduler.run fuel es w)) = None.
Proof.
  revert w. induction es as [| e es IH]; intros w H; [exact H |].
  cbn. apply IH. unfold scheduler.run_event.
  apply run_ready_disconnected. now apply keeps_apply_event.
Qed.

End StaysDisconnected.

Section Disconnected.

(** C9: when [start] fails because the pipe is unavailable, then without
    [raise_on_fail] the coroutine returns normally, [_rpc] is [None] and
    [bool(party)] is false, and stays false whatever happens afterwards;
    with [raise_on_fail] the exception leaves [start] and the session keeps
    its client. *)
Theorem C9_start_failure (pid : Z) :
  (task_state (failed_start pid false) 0 = Some (FINISHED (Ok VNone)) /\
   _rpc (party (failed_start pid false)) = None /\
   Party.__bool__ (party (failed_start pid false)) = false) /\
  (forall fuel es,
     Party.__bool__ (party (scheduler.run fuel es (failed_start pid false))) = false) /\
  (task_state (failed_start pid true) 0 = Some (FINISHED (Err InvalidPipe)) /\
   Party.__bool__ (party (failed_start pid true)) = true) /\
  (forall w io,
     Party.start false (S_start io) (Err InvalidPipe) w
     = (Ok (asyncio.Returned VNone), with_party (Party.set_rpc None) w)) /\
  (forall w io,
     Party.start true (S_start io) (Err InvalidPipe) w = (Err InvalidPipe, w)).
Proof.
  split; [repeat split; vm_compute; reflexivity |].
  split.
  { intros fuel es. unfold Party.__bool__.
    rewrite (run_disconnected fuel es (failed_start pid false)); reflexivity. }
  split; [repeat split; vm_compute; reflexivity |].
  split; reflexivity.
Qed.

Variables (w : World) (meanwhile : callback) (delay : Z).
Hypothesis disconnected : _rpc (party w) = None.

(** C3 (the code at the failing input): on a session without client,
    [update] returns without doing anything, but the first step of
    [wait_for_player_join] raises [AttributeError] at
    [self._rpc.register_event], after it has created its future; the task
    running it ends with that exception. *)
Theorem C3_wait_on_disconnected :
  Party.update U_begin (Ok VNone) w = (Ok (asyncio.Returned VNone), w) /\
  Party.wait_for_player_join meanwhile delay W_begin (Ok VNone) w
  = (Err (AttributeError "register_event"),
     with_loop (set_futures (futures (loop w) ++ [PENDING])) w) /\
  (forall tid,
     tasks (loop w) !! tid
     = Some (mkTask (co_wait_for_player_join meanwhile delay W_begin) None false PENDING) ->
     task_state (exec (scheduler.task_step tid) w) tid
     = Some (FINISHED (Err (AttributeError "register_event")))).
Proof.
  assert (Hwait : Party.wait_for_player_join meanwhile delay W_begin (Ok VNone) w
    = (Err (AttributeError "register_event"),
       with_loop (set_futures (futures (loop w) ++ [PENDING])) w)).
  { unfold Party.wait_for_player_join, Party.update_begin,
      Party.wait_for_player_join_register, Party.on_player_join, Party.rpc_attr,
      bind, gets. cbn. rewrite disconnected. cbn. rewrite disconnected. reflexivity. }
  split; [| split; [exact Hwait |]].
  - unfold Party.update, Party.update_begin, bind, gets. cbn. now rewrite disconnected.
  - intros tid Htid. unfold exec, scheduler.task_step, task_state. rewrite Htid. cbn.
    unfold Party.update_begin, Party.wait_for_player_join_register,
      Party.on_player_join, Party.rpc_attr, bind, gets. cbn.
    rewrite disconnected. cbn. rewrite disconnected. cbn.
    now rewrite !list_lookup_alter_eq, Htid.
Qed.

End Disconnected.

Lemma C3_wait_on_disconnected_witness :
  let w := scheduler.run_event 20 (failed_start 7 false)
             (scheduler.CreateTask (co_wait_for_player_join cb_none 500 W_begin)) in
  Party.__bool__ (party (failed_start 7 false)) = false /\
  fst (Party.wait_for_player_join cb_none 500 W_begin (Ok VNone) (failed_start 7 false))
  = Err (AttributeError "register_event") /\
  task_state w 1 = Some (FINISHED (Err (AttributeError "register_event"))).
Proof.
  destruct (C3_wait_on_disconnected (failed_start 7 false) cb_none 500 eq_refl)
    as (_ & Hraise & _).
  split; [reflexivity | split].
  - now rewrite Hraise.
  - destruct (C3_wait_on_disconnected
                (exec (scheduler.apply_event
                         (scheduler.CreateTask (co_wait_for_player_join cb_none 500 W_begin)))
                      (failed_start 7 false))
                cb_none 500 eq_refl) as (_ & _ & Hstep).
    exact (Hstep 1%nat eq_refl).
Defined.

Section PeriodicCallback.

(** While nothing is scheduled the passing of time changes the clock only. *)
Lemma ticks_when_idle (fuel m : nat) (dt : Z) (w : World) :
  _scheduled (loop w) = [] -> _ready (loop w) = [] ->
  scheduler.run fuel (ticks m dt) w
  = with_loop (set_time (time (loop w) + Z.of_nat m * dt)) w.
Proof.
  revert w. induction m as [| m IH]; intros w Hs Hr.
  - destruct w as [c p [t r sch ts fs] n]. cbn in *. subst.
    unfold with_loop, set_time. cbn. now rewrite Z.add_0_r.
  - assert (Hstep : scheduler.run_event fuel w (scheduler.Elapse dt)
                    = with_loop (set_time (time (loop w) + dt)) w).
    { destruct w as [c p [t r sch ts fs] n]. cbn in Hs, Hr. subst.
      unfold scheduler.run_event, exec. cbn. now destruct fuel. }
    change (scheduler.run fuel (ticks (S m) dt) w)
      with (scheduler.run fuel (ticks m dt)
              (scheduler.run_event fuel w (scheduler.Elapse dt))).
    rewrite Hstep, IH by (cbn; assumption).
    destruct w as [c p [t r sch ts fs] n]. unfold with_loop, set_time. cbn.
    do 2 f_equal. lia.
Qed.

Lemma counting_wait_from_500ms (k : nat) :
  counting_wait_at (5 + k)
  = with_loop (set_time (500 + Z.of_nat k * 100)) (counting_wait_at 5).
Proof.
  assert (Hsplit : counting_wait_at (5 + k)
                   = scheduler.run 20 (ticks k 100) (counting_wait_at 5)).
  { unfold counting_wait_at, ticks, scheduler.run.
    now rewrite replicate_add, foldl_app. }
  rewrite Hsplit.
  rewrite (ticks_when_idle 20 k 100 (counting_wait_at 5)) by (vm_compute; reflexivity).
  f_equal.
Qed.

Lemma joined_from_500ms (k : nat) (s : value) :
  calls (counting_wait_joined_at (5 + k) s) = 1%nat /\
  task_state (counting_wait_joined_at (5 + k) s) 0 = Some (FINISHED (Ok s)) /\
  _scheduled (loop (counting_wait_joined_at (5 + k) s)) = [] /\
  _ready (loop (counting_wait_joined_at (5 + k) s)) = [].
Proof.
  unfold counting_wait_joined_at. rewrite counting_wait_from_500ms.
  generalize (500 + Z.of_nat k * 100). intros T.
  repeat split; vm_compute; reflexivity.
Qed.

Lemma joined_before_500ms (n : nat) (s : value) :
  (n < 5)%nat ->
  calls (counting_wait_joined_at n s) = 1%nat /\
  task_state (counting_wait_joined_at n s) 0 = Some (FINISHED (Ok s)) /\
  _scheduled (loop (counting_wait_joined_at n s)) = [] /\
  _ready (loop (counting_wait_joined_at n s)) = [].
Proof.
  intros Hn.
  do 5 (destruct n as [| n]; [repeat split; vm_compute; reflexivity |]). lia.
Qed.

Lemma meantime_sleep_spec meanwhile delay w c' sp w' :
  Party.meantime_sleep meanwhile delay w = (Ok (asyncio.Suspended c' sp), w') ->
  calls w' = calls w /\
  exists pc', c' = co_meantime meanwhile delay pc' /\ pc' <> M_begin.
Proof.
  unfold Party.meantime_sleep, asyncio.sleep, asyncio.create_future, bind, ret, gets, modify.
  destruct (delay <=? 0); cbn; intros H; injection H as <- <- <-;
    (split; [reflexivity | eexists; split; [reflexivity | discriminate]]).
Qed.

Lemma except_cancelled_returns e w c' sp w' :
  Party.except_cancelled e w <> (Ok (asyncio.Suspended c' sp), w').
Proof. unfold Party.except_cancelled. destruct (is_cancelled e); discriminate. Qed.

Lemma meantime_leaves_begin meanwhile delay pc inp w c' sp w' :
  Party.meantime meanwhile delay pc inp w = (Ok (asyncio.Suspended c' sp), w') ->
  exists pc', c' = co_meantime meanwhile delay pc' /\ pc' <> M_begin.
Proof.
  intros Hstep.
  destruct pc, inp as [v | e]; cbn in Hstep;
    unfold bind, asyncio.cancel_handle, modify in Hstep; cbn in Hstep;
    try (now apply meantime_sleep_spec in Hstep);
    try (now apply except_cancelled_returns in Hstep);
    try discriminate Hstep.
  destruct (Party.call_meanwhile meanwhile w) as [[[aw |] | e] w1].
  - destruct (futures (loop w1) !! aw) as [[| | [v0 | e]] |];
      try (now apply meantime_sleep_spec in Hstep);
      try (now apply except_cancelled_returns in Hstep);
      try discriminate Hstep.
    injection Hstep as <- <- <-. eexists. split; [reflexivity | discriminate].
  - now apply meantime_sleep_spec in Hstep.
  - now apply except_cancelled_returns in Hstep.
Qed.

(** C1 (the code at the failing input, and at every other arrival time):
    with [delay = 0.5] and a counting callback, when the join request
    arrives after 1.6 s the callback has run exactly once, not two to four
    times.  [meantime] calls [meanwhile] in its first step only and no step
    leads back to the call, so whenever the request arrives the count is 1;
    it stays 1 afterwards, and the wait returns the secret. *)
Theorem C1_callback_runs_once :
  time (loop (counting_wait_at 16)) = 1600 /\
  calls (counting_wait_at 16) = 1%nat /\
  calls counting_wait_joined = 1%nat /\
  calls counting_wait_afterwards = 1%nat /\
  task_state counting_wait_afterwards 0 = Some (FINISHED (Ok (VStr "s3cr3t"))) /\
  (forall n, calls (counting_wait_at n) = 1%nat) /\
  (forall n m s,
     let w := scheduler.run 20 (ticks m 100) (counting_wait_joined_at n s) in
     calls w = 1%nat /\ task_state w 0 = Some (FINISHED (Ok s))) /\
  (forall meanwhile delay pc inp w c' sp w',
     Party.meantime meanwhile delay pc inp w = (Ok (asyncio.Suspended c' sp), w') ->
     (exists pc', c' = co_meantime meanwhile delay pc' /\ pc' <> M_begin) /\
     (pc <> M_begin -> calls w' = calls w)).
Proof.
  split; [vm_compute; reflexivity |].
  split; [vm_compute; reflexivity |].
  split; [vm_compute; reflexivity |].
  split; [vm_compute; reflexivity |].
  split; [vm_compute; reflexivity |].
  split; [| split].
  - intros n. destruct (le_lt_dec 5 n) as [Hge | Hlt].
    + replace n with (5 + (n - 5))%nat by lia.
      rewrite counting_wait_from_500ms. vm_compute. reflexivity.
    + do 5 (destruct n as [| n]; [vm_compute; reflexivity |]). lia.
  - intros n m s.
    assert (H : calls (counting_wait_joined_at n s) = 1%nat /\
                task_state (counting_wait_joined_at n s) 0 = Some (FINISHED (Ok s)) /\
                _scheduled (loop (counting_wait_joined_at n s)) = [] /\
                _ready (loop (counting_wait_joined_at n s)) = []).
    { destruct (le_lt_dec 5 n) as [Hge | Hlt].
      - replace n with (5 + (n - 5))%nat by lia. apply joined_from_500ms.
      - now apply joined_before_500ms. }
    destruct H as (Hc & Ht & Hs & Hr). cbv zeta.
    rewrite ticks_when_idle by assumption. split; [exact Hc | exact Ht].
  - intros meanwhile delay pc inp w c' sp w' Hstep. split.
    + apply (meantime_leaves_begin _ _ _ _ _ _ _ _ Hstep).
    + intros Hpc. destruct pc, inp as [v | e]; try congruence; cbn in Hstep;
        unfold bind, asyncio.cancel_handle, modify in Hstep; cbn in Hstep;
        first [ now apply meantime_sleep_spec in Hstep
              | now apply except_cancelled_returns in Hstep
              | discriminate Hstep ].
Qed.

End PeriodicCallback.

Lemma C1_callback_runs_once_witness :
  calls (counting_wait_at 16) = 1%nat /\
  exists pc',
    co_meantime cb_count 500 (M_sleep 0) = co_meantime cb_count 500 pc' /\ pc' <> M_begin.
Proof.
  destruct C1_callback_runs_once as (_ & Hcalls & _ & _ & _ & _ & _ & Hshape).
  split; [exact Hcalls |].
  refine (proj1 (Hshape cb_count 500 M_begin (Ok VNone) (Party.__init__ 7)
                   (co_meantime cb_count 500 (M_sleep 0)) (asyncio.Await 0%nat) _ _)).
  reflexivity.
Defined.

Section OuterCancellation.

(** C2 (as stated, refuted): after the caller has cancelled the wait and the
    cancellation has left [wait_for_player_join], the periodic task is not
    cancelled (it is still asleep), the handler is still registered and no
    unsubscription has been requested. *)
Lemma C2_no_cleanup_on_cancel :
  task_state cancelled_wait 0 = Some CANCELLED /\
  task_coro cancelled_wait 2 = Some (co_meantime cb_count 500 (M_sleep 3)) /\
  task_state cancelled_wait 2 = Some PENDING /\
  _events (client cancelled_wait) !! "activity_join" = Some (handler 1) /\
  (Unsubscribe "activity_join" ∉ sent (client cancelled_wait)) /\
  _ready (loop cancelled_wait) = [].
Proof.
  repeat split; try (vm_compute; reflexivity).
  intros Hin. apply list_elem_of_In in Hin. vm_compute in Hin.
  repeat (destruct Hin as [Hin | Hin]; [discriminate Hin |]). exact Hin.
Qed.

Variables (w : World) (tid fut task : nat) (meanwhile : callback) (delay : Z).

Hypothesis waiting :
  tasks (loop w) !! tid
  = Some (mkTask (co_wait_for_player_join meanwhile delay (W_fut fut task))
                 (Some fut) false PENDING).
Hypothesis pending : futures (loop w) !! fut = Some PENDING.

(** C2 (amended): when the wait is cancelled while it is suspended on its
    future, the future is cancelled, [CancelledError] is raised at
    [await fut] and leaves [wait_for_player_join] at once: the task ends
    cancelled, and nothing else is done; no other task is touched (the
    periodic task is not cancelled) and the client is as before (the
    handler stays registered, nothing is sent). *)
Theorem C2_cancel_propagates_without_cleanup :
  let w' := exec (scheduler.task_step tid) (exec (asyncio.cancel tid) w) in
  task_state w' tid = Some CANCELLED /\
  futures (loop w') = <[fut := CANCELLED]> (futures (loop w)) /\
  (forall t, t <> tid -> tasks (loop w') !! t = tasks (loop w) !! t) /\
  client w' = client w /\
  party w' = party w /\
  _scheduled (loop w') = _scheduled (loop w).
Proof.
  assert (Hlt : (fut < length (futures (loop w)))%nat)
    by (eapply lookup_lt_Some; exact pending).
  assert (Hc : exec (asyncio.cancel tid) w
    = with_loop (fun l => set_ready (_ready l ++ asyncio.waiters fut (tasks l)) l)
        (with_loop (fun l => set_futures (<[fut := CANCELLED]> (futures l)) l) w)).
  { unfold exec, asyncio.cancel, bind, gets. cbn. rewrite waiting. cbn.
    unfold asyncio.cancel_future, asyncio.state_of, bind, gets. cbn.
    rewrite pending. reflexivity. }
  cbv zeta. rewrite Hc. clear Hc.
  unfold exec, scheduler.task_step. cbn. rewrite waiting. cbn.
  unfold scheduler.step_input. cbn. rewrite list_lookup_insert_eq by exact Hlt.
  cbn. unfold task_state. cbn.
  rewrite !list_lookup_alter_eq, waiting. cbn.
  repeat split.
  intros t Ht. now rewrite !list_lookup_alter_ne by congruence.
Qed.

End OuterCancellation.

Lemma C2_cancel_propagates_without_cleanup_witness :
  let w := wait_registered 7 cb_count 500 in
  let w' := exec (scheduler.task_step 0) (exec (asyncio.cancel 0) w) in
  task_state w' 0 = Some CANCELLED /\
  tasks (loop w') !! 2%nat = tasks (loop w) !! 2%nat /\
  client w' = client w.
Proof.
  destruct (C2_cancel_propagates_without_cleanup
              (wait_registered 7 cb_count 500) 0 1 2 cb_count 500)
    as (Hstate & _ & Hother & Hclient & _).
  - vm_compute. reflexivity.
  - vm_compute. reflexivity.
  - split; [exact Hstate | split; [| exact Hclient]].
    apply Hother. discriminate.
Defined.

Section UpdateLoops.

(** C5 (as stated, refuted): [update_loop] is called a second time, 0.1 s
    after the first call and while the first loop sleeps.  Both loops are
    active from then on, and each goes on pushing the status every 0.5 s:
    two pushes have been made after the second call, four 0.5 s later.
    One request is outstanding at a time throughout.  The same holds on a
    session without client, where the two loops sleep and wake side by
    side and send nothing. *)
Lemma C5_two_loops_run_concurrently :
  let w := scheduler.run 20 second_update_loop (Party.__init__ 7) in
  let w' := scheduler.run 20 both_loops_push w in
  let v := two_update_loops_without_client 7 500 500 in
  let v' := scheduler.run_event 20 v (scheduler.Elapse 500) in
  one_request_at_a_time
    (scheduler.trace 20 (second_update_loop ++ both_loops_push) (Party.__init__ 7)) = true /\
  active_update_loops w = [0; 1]%nat /\
  _scheduled (loop w) = [(500, 1%nat); (600, 3%nat)] /\
  length (transmitted w) = 2%nat /\
  active_update_loops w' = [0; 1]%nat /\
  _scheduled (loop w') = [(1000, 5%nat); (1100, 7%nat)] /\
  length (transmitted w') = 4%nat /\
  ~ (length (active_update_loops w') <= 1)%nat /\
  active_update_loops v = [1; 2]%nat /\
  active_update_loops v' = [1; 2]%nat /\
  _scheduled (loop v') = [(1000, 3%nat); (1000, 4%nat)] /\
  sent (client v') = [Handshake] /\
  ~ (length (active_update_loops v') <= 1)%nat.
Proof.
  cbv zeta.
  repeat split; try (vm_compute; reflexivity);
    vm_compute; intros H; inversion H as [| ? H']; inversion H'.
Qed.

Lemma active_update_loops_app (w : World) (t : Task) :
  omap (fun '(tid, t) =>
          if (is_leloop (_coro t) && negb (done (_state t)))%bool then Some tid else None)
       (imap pair (tasks (loop w) ++ [t]))
  = (active_update_loops w
     ++ (if (is_leloop (_coro t) && negb (done (_state t)))%bool
         then [length (tasks (loop w))] else []))%list.
Proof.
  unfold active_update_loops. rewrite imap_app, omap_app. f_equal.
  cbn. rewrite Nat.add_0_r. now destruct (is_leloop (_coro t) && negb (done (_state t)))%bool.
Qed.

(** C5 (amended): [update_loop] cancels nothing.  Every call adds one task
    running [leloop] to the tasks there are, leaves each of them as it was,
    and makes [updating_loop] refer to the new one: the loops that were
    active stay active next to it.  [stop_updating_loop] touches no task
    but the one [updating_loop] refers to. *)
Theorem C5_update_loop_adds_a_loop (w : World) (delay : Z) :
  let new := length (tasks (loop w)) in
  let w' := exec (Party.update_loop delay) w in
  fst (Party.update_loop delay w) = Ok new /\
  tasks (loop w') = (tasks (loop w) ++ [mkTask (co_leloop delay L_begin) None false PENDING])%list /\
  futures (loop w') = futures (loop w) /\
  updating_loop (party w') = Some new /\
  active_update_loops w' = (active_update_loops w ++ [new])%list /\
  (forall t, updating_loop (party w) <> Some t ->
     tasks (loop (exec Party.stop_updating_loop w)) !! t = tasks (loop w) !! t).
Proof.
  cbv zeta. repeat split.
  - unfold active_update_loops at 1. unfold exec, Party.update_loop. cbn.
    now rewrite active_update_loops_app.
  - intros t Ht. unfold exec, Party.stop_updating_loop, bind, gets. cbn.
    destruct (updating_loop (party w)) as [u|] eqn:Hu; [| reflexivity].
    assert (Hne : u <> t) by congruence.
    unfold asyncio.cancel, bind, gets. cbn.
    destruct (tasks (loop w) !! u) as [tu|] eqn:Htu; [| reflexivity]. cbn.
    destruct (done (_state tu)); [reflexivity |]. cbn.
    destruct (_fut_waiter tu) as [f|]; cbn.
    + unfold asyncio.cancel_future, asyncio.state_of, bind, gets. cbn.
      destruct (futures (loop w) !! f) as [sf|]; cbn; [| reflexivity].
      destruct (done sf); cbn; [| reflexivity].
      now rewrite list_lookup_alter_ne.
    + now rewrite list_lookup_alter_ne.
Qed.

End UpdateLoops.

Lemma C5_update_loop_adds_a_loop_witness :
  let w := exec (Party.update_loop 500) (Party.__init__ 7) in
  let w' := exec (Party.update_loop 500) w in
  active_update_loops w' = [0; 1]%nat /\
  updating_loop (party w') = Some 1%nat /\
  tasks (loop (exec Party.stop_updating_loop w')) !! 0%nat = tasks (loop w') !! 0%nat.
Proof.
  destruct (C5_update_loop_adds_a_loop (exec (Party.update_loop 500) (Party.__init__ 7)) 500)
    as (_ & _ & _ & Hul & Hact & _).
  destruct (C5_update_loop_adds_a_loop
              (exec (Party.update_loop 500)
                 (exec (Party.update_loop 500) (Party.__init__ 7))) 500)
    as (_ & _ & _ & _ & _ & Hstop).
  split; [exact Hact | split; [exact Hul |]].
  apply Hstop. discriminate.
Defined.

Section Registration.

(** C7 (as stated, refuted): when the wait is suspended on its future the
    status push has completed, but the handler is not registered: the
    registration task still waits for the answer to its subscription.  A
    join request dispatched now reaches no handler; the future stays
    pending, also after the registration has completed. *)
Lemma C7_wait_begins_before_registration :
  let w := wait_called 7 cb_count 500 in
  let w' := scheduler.run 20
              [join_request {[ "secret" := VStr "s3cr3t" ]}; scheduler.Reply] w in
  task_coro w 0 = Some (co_wait_for_player_join cb_count 500 (W_fut 1 2)) /\
  length (transmitted w) = 1%nat /\
  task_coro w 1 = Some (co_register_event "ACTIVITY_JOIN" (handler 1) (R_subscribe 2)) /\
  task_state w 1 = Some PENDING /\
  _events (client w) !! "activity_join" = None /\
  _events (client w') !! "activity_join" = Some (handler 1) /\
  futures (loop w') !! 1%nat = Some PENDING /\
  task_state w' 0 = Some PENDING.
Proof.
  repeat split; vm_compute; reflexivity.
Qed.

Variables (w : World) (meanwhile : callback) (delay : Z).
Hypothesis connected : _rpc (party w) = Some the_client.


(** C7 (amended): the status push is requested first, and only when it has
    been answered does [wait_for_player_join] go on.  It then creates the
    future, schedules the registration of the handler as a task of its own
    and the periodic task, and suspends on the future: at that point the
    registration task has not run, the client's [_events] and the requests
    sent are as before.  The handler is stored by the second step of the
    registration task, after the subscription has been answered; until
    then a dispatched event finds no handler and changes nothing. *)
Theorem C7_registration_is_scheduled_not_awaited :
  let fut := length (futures (loop w)) in
  let reg := length (tasks (loop w)) in
  (forall v,
     Party.wait_for_player_join meanwhile delay W_begin (Ok v) w
     = (Ok (asyncio.Suspended (co_wait_for_player_join meanwhile delay (W_update fut))
                              (asyncio.Await fut)),
        with_client (fun c => mkClient (_events c)
                                (sent c ++ [SetActivity (_status (party w))])
                                (reading c ++ [fut]))
          (with_loop (set_futures (futures (loop w) ++ [PENDING])) w))) /\
  (forall io v,
     exists w',
       Party.wait_for_player_join meanwhile delay (W_update io) (Ok v) w
       = (Ok (asyncio.Suspended
                (co_wait_for_player_join meanwhile delay (W_fut fut (S reg)))
                (asyncio.Await fut)), w') /\
       client w' = client w /\
       futures (loop w') = (futures (loop w) ++ [PENDING])%list /\
       tasks (loop w')
       = (tasks (loop w)
          ++ [mkTask (co_register_event "ACTIVITY_JOIN" (handler fut) R_begin)
                     None false PENDING;
              mkTask (co_meantime meanwhile delay M_begin) None false PENDING])%list /\
       _ready (loop w') = (_ready (loop w) ++ [reg; S reg])%list) /\
  (forall evt data,
     _events (client w) !! lower evt = None -> rpc.on_event evt data w = (Ok tt, w)) /\
  (forall evt f io v,
     rpc.register_event evt f (R_subscribe io) (Ok v) w
     = (Ok (asyncio.Returned VNone),
        with_client (fun c => mkClient (<[lower evt := f]> (_events c)) (sent c) (reading c))
          w)).
Proof.
  cbv zeta. repeat split.
  - intros v. unfold Party.wait_for_player_join, Party.update_begin, bind, gets.
    cbn. rewrite connected. reflexivity.
  - intros io v. eexists.
    unfold Party.wait_for_player_join, Party.wait_for_player_join_register,
      Party.on_player_join, Party.rpc_attr, bind, gets.
    cbn. rewrite connected. cbn.
    rewrite length_app. cbn. rewrite Nat.add_1_r.
    repeat split; cbn; now rewrite <- !app_assoc.
  - intros evt data Hnone. unfold rpc.on_event, bind, gets. cbn. now rewrite Hnone.
Qed.

End Registration.

Lemma C7_registration_is_scheduled_not_awaited_witness :
  let w := scheduler.run_event 20 (Party.__init__ 7)
             (scheduler.CreateTask (co_wait_for_player_join cb_count 500 W_begin)) in
  rpc.on_event "ACTIVITY_JOIN" {[ "secret" := VStr "s3cr3t" ]} w = (Ok tt, w).
Proof.
  destruct (C7_registration_is_scheduled_not_awaited
              (scheduler.run_event 20 (Party.__init__ 7)
                 (scheduler.CreateTask (co_wait_for_player_join cb_count 500 W_begin)))
              cb_count 500 eq_refl) as (_ & _ & Hdrop & _).
  apply Hdrop. reflexivity.
Defined.

Section KernelFacts.

Lemma waiters_elem (ts : list Task) (tid f : nat) (t : Task) :
  ts !! tid = Some t -> done (_state t) = false -> _fut_waiter t = Some f ->
  tid ∈ asyncio.waiters f ts.
Proof.
  intros Hl Hd Hw. unfold asyncio.waiters. apply list_elem_of_omap.
  exists (tid, t). split.
  - apply (elem_of_lookup_imap_2 pair). exact Hl.
  - cbn. rewrite Hd, Hw. cbn. now rewrite bool_decide_eq_true_2.
Qed.


End KernelFacts.

Section JoinEvent.

Lemma lower_activity_join : lower "ACTIVITY_JOIN" = "activity_join".
Proof. reflexivity. Qed.




Variables (w : World) (tid fut task : nat) (meanwhile : callback) (delay : Z).
Variables (t_task : Task) (data : gmap string value) (s : value).

Hypothesis waiting :
  tasks (loop w) !! tid
  = Some (mkTask (co_wait_for_player_join meanwhile delay (W_fut fut task))
                 (Some fut) false PENDING).
Hypothesis pending : futures (loop w) !! fut = Some PENDING.
Hypothesis registered : _events (client w) !! "activity_join" = Some (handler fut).
Hypothesis connected : _rpc (party w) = Some the_client.
Hypothesis periodic : tasks (loop w) !! task = Some t_task.
Hypothesis distinct : task <> tid.
Hypothesis periodic_waits :
  forall f, _fut_waiter t_task = Some f -> is_Some (futures (loop w) !! f).
Hypothesis nothing_outstanding : reading (client w) = [].
Hypothesis has_secret : data !! "secret" = Some s.


End JoinEvent.



(** * Further properties of the code *)

(** ** A frame rule for the session

    Whatever the loop, the tasks and the peer do, they reach the status
    mapping and the transmitted snapshots only through [update_begin] and
    the accessors, and the client reference only through [start] and
    [close]. *)

Section Frame.

Variable P : World -> Prop.

Hypothesis P_loop : forall f w, P w -> P (with_loop f w).
Hypothesis P_calls : forall f w, P w -> P (with_calls f w).
Hypothesis P_client :
  forall w c',
    omap (fun r => match r with SetActivity m => Some m | _ => None end) (sent c')
    = transmitted w ->
    P w -> P (mkWorld c' (party w) (loop w) (calls w)).
Hypothesis P_updating_loop :
  forall t w, P w -> P (with_party (Party.set_updating_loop t) w).
Hypothesis P_disconnect : forall w, P w -> P (with_party (Party.set_rpc None) w).
Hypothesis P_push : preserves P Party.update_begin.

Create HintDb frame.

Lemma pres_ret {A} (a : A) : preserves P (ret a).
Proof. intros w H. exact H. Qed.

Lemma pres_raise {A} (e : exn) : preserves P (@raise A e).
Proof. intros w H. exact H. Qed.

Lemma pres_gets {A} (f : World -> A) : preserves P (gets f).
Proof. intros w H. exact H. Qed.

Lemma pres_bind {A B} (m : M A) (k : A -> M B) :
  preserves P m -> (forall a, preserves P (k a)) -> preserves P (bind m k).
Proof.
  intros Hm Hk w H. unfold bind. specialize (Hm w H).
  destruct (m w) as [[a | e] w']; cbn in *; [now apply Hk | exact Hm].
Qed.

Lemma pres_if {A} (b : bool) (m1 m2 : M A) :
  preserves P m1 -> preserves P m2 -> preserves P (if b then m1 else m2).
Proof. now destruct b. Qed.

Lemma pres_modify_loop (f : Loop -> Loop) : preserves P (modify (with_loop f)).
Proof. intros w H. now apply P_loop. Qed.

Lemma pres_modify_calls (f : nat -> nat) : preserves P (modify (with_calls f)).
Proof. intros w H. now apply P_calls. Qed.

Lemma pres_modify_events (g : AioClient -> gmap string func)
    (h : AioClient -> list nat) :
  preserves P (modify (with_client (fun c => mkClient (g c) (sent c) (h c)))).
Proof. intros w H. cbn. now apply P_client. Qed.

Lemma pres_modify_updating_loop t :
  preserves P (modify (with_party (Party.set_updating_loop t))).
Proof. intros w H. now apply P_updating_loop. Qed.

Lemma pres_modify_disconnect : preserves P (modify (with_party (Party.set_rpc None))).
Proof. intros w H. now apply P_disconnect. Qed.

Lemma pres_create_future : preserves P asyncio.create_future.
Proof. intros w H. now apply P_loop. Qed.

Lemma pres_create_task c : preserves P (asyncio.create_task c).
Proof. intros w H. now apply P_loop. Qed.

Ltac pres_step :=
  first
    [ apply pres_ret | apply pres_raise | apply pres_gets
    | apply pres_modify_loop | apply pres_modify_calls
    | apply pres_modify_updating_loop | apply pres_modify_disconnect
    | apply pres_create_future | apply pres_create_task
    | exact P_push
    | apply pres_bind; [| intros ?]
    | apply pres_if
    | match goal with
      | |- preserves P (match ?x with _ => _ end) => destruct x
      end ].

Ltac pres_auto := repeat pres_step; auto with frame nocore.

Lemma pres_settle f s : preserves P (asyncio.settle f s).
Proof. unfold asyncio.settle, asyncio.schedule_callbacks. pres_auto. Qed.
#[local] Hint Resolve pres_settle : frame.

Lemma pres_state_of f : preserves P (asyncio.state_of f).
Proof. unfold asyncio.state_of. pres_auto. Qed.
#[local] Hint Resolve pres_state_of : frame.

Lemma pres_set_result f v : preserves P (asyncio.set_result f v).
Proof. unfold asyncio.set_result. pres_auto. Qed.
#[local] Hint Resolve pres_set_result : frame.

Lemma pres_set_exception f e : preserves P (asyncio.set_exception f e).
Proof. unfold asyncio.set_exception. pres_auto. Qed.
#[local] Hint Resolve pres_set_exception : frame.

Lemma pres_cancel_future f : preserves P (asyncio.cancel_future f).
Proof. unfold asyncio.cancel_future. pres_auto. Qed.
#[local] Hint Resolve pres_cancel_future : frame.

Lemma pres_update_task tid g : preserves P (asyncio.update_task tid g).
Proof. unfold asyncio.update_task. pres_auto. Qed.
#[local] Hint Resolve pres_update_task : frame.

Lemma pres_cancel tid : preserves P (asyncio.cancel tid).
Proof. unfold asyncio.cancel. pres_auto. Qed.
#[local] Hint Resolve pres_cancel : frame.

Lemma pres_call_soon tid : preserves P (asyncio.call_soon tid).
Proof. unfold asyncio.call_soon. pres_auto. Qed.
#[local] Hint Resolve pres_call_soon : frame.

Lemma pres_sleep delay : preserves P (asyncio.sleep delay).
Proof. unfold asyncio.sleep. pres_auto. Qed.
#[local] Hint Resolve pres_sleep : frame.

Lemma pres_cancel_handle f : preserves P (asyncio.cancel_handle f).
Proof. unfold asyncio.cancel_handle. pres_auto. Qed.
#[local] Hint Resolve pres_cancel_handle : frame.

(** A request other than a status push. *)
Lemma pres_request r :
  (forall m, r <> SetActivity m) -> preserves P (rpc.request_and_read r).
Proof.
  intros Hr. unfold rpc.request_and_read. pres_auto.
  intros w H. cbn. apply P_client; [| exact H].
  cbn. unfold transmitted. rewrite omap_app. cbn.
  destruct r; try (now rewrite app_nil_r). now destruct (Hr kwargs).
Qed.

Ltac pres_send :=
  repeat first [ apply pres_request; discriminate | pres_step ];
  auto with frame nocore.

Lemma pres_register_event event f pc inp :
  preserves P (rpc.register_event event f pc inp).
Proof.
  unfold rpc.register_event. destruct pc, inp; pres_send.
  apply (pres_modify_events (fun c => <[lower event := f]> (_events c)) reading).
Qed.
#[local] Hint Resolve pres_register_event : frame.

Lemma pres_on_event evt data : preserves P (rpc.on_event evt data).
Proof. unfold rpc.on_event, rpc.call. pres_send. Qed.
#[local] Hint Resolve pres_on_event : frame.

Lemma pres_rpc_attr attr : preserves P (Party.rpc_attr attr).
Proof. unfold Party.rpc_attr. pres_send. Qed.
#[local] Hint Resolve pres_rpc_attr : frame.

Lemma pres_except_cancelled e : preserves P (Party.except_cancelled e).
Proof. unfold Party.except_cancelled. pres_send. Qed.
#[local] Hint Resolve pres_except_cancelled : frame.

Lemma pres_leloop_sleep delay : preserves P (Party.leloop_sleep delay).
Proof. unfold Party.leloop_sleep. pres_send. Qed.
#[local] Hint Resolve pres_leloop_sleep : frame.

Lemma pres_leloop_iteration delay : preserves P (Party.leloop_iteration delay).
Proof. unfold Party.leloop_iteration. pres_send. Qed.
#[local] Hint Resolve pres_leloop_iteration : frame.

Lemma pres_meantime_sleep m delay : preserves P (Party.meantime_sleep m delay).
Proof. unfold Party.meantime_sleep. pres_send. Qed.
#[local] Hint Resolve pres_meantime_sleep : frame.

Lemma pres_call_meanwhile m : preserves P (Party.call_meanwhile m).
Proof. unfold Party.call_meanwhile. pres_send. Qed.
#[local] Hint Resolve pres_call_meanwhile : frame.

Lemma pres_meantime m delay pc inp : preserves P (Party.meantime m delay pc inp).
Proof.
  unfold Party.meantime. destruct pc, inp; pres_send.
  intros w H. pose proof (pres_call_meanwhile m w H) as Hc.
  destruct (Party.call_meanwhile m w) as [[[aw |] | e] w']; cbn in Hc.
  - destruct (futures (loop w') !! aw) as [[| | [v | e]] |]; try exact Hc;
      first [now apply pres_meantime_sleep | now apply pres_except_cancelled].
  - now apply pres_meantime_sleep.
  - now apply pres_except_cancelled.
Qed.
#[local] Hint Resolve pres_meantime : frame.

Lemma pres_start rof pc inp : preserves P (Party.start rof pc inp).
Proof.
  unfold Party.start. destruct pc, inp; pres_send.
Qed.
#[local] Hint Resolve pres_start : frame.

Lemma pres_wait_for_player_join m delay pc inp :
  preserves P (Party.wait_for_player_join m delay pc inp).
Proof.
  unfold Party.wait_for_player_join, Party.wait_for_player_join_register,
    Party.on_player_join, rpc.unregister_event_begin, rpc.unregister_event_end.
  destruct pc, inp; pres_send.
  apply (pres_modify_events (fun c => delete (lower "ACTIVITY_JOIN") (_events c)) reading).
Qed.
#[local] Hint Resolve pres_wait_for_player_join : frame.

Lemma pres_resume c inp : preserves P (scheduler.resume c inp).
Proof.
  destruct c as [delay pc | m delay pc | event f pc | pc | rof pc | m delay pc]; cbn;
    auto with frame nocore.
  - unfold Party.leloop. destruct pc, inp; pres_auto.
  - unfold Party.update. destruct pc, inp; pres_auto.
Qed.

Lemma pres_task_step tid : preserves P (scheduler.task_step tid).
Proof.
  intros w H. unfold scheduler.task_step.
  destruct (tasks (loop w) !! tid) as [t |]; [| exact H].
  destruct (done (_state t)); [exact H |].
  match goal with
  | |- context [scheduler.resume ?c ?i ?w1] =>
      assert (H1 : P w1) by (now apply pres_update_task);
      pose proof (pres_resume c i w1 H1) as Hr;
      destruct (scheduler.resume c i w1) as [[[c' [f |] | v] | e] w2]
  end; cbn in Hr.
  - revert w2 Hr.
    change (preserves P (asyncio.update_task tid
                     (fun t0 => mkTask c' (Some f) (_must_cancel t0) (_state t0)) ;;;
                   s <- asyncio.state_of f ;;
                   if done s then asyncio.call_soon tid else ret tt)).
    pres_auto.
  - revert w2 Hr.
    change (preserves P (asyncio.update_task tid
                     (fun t0 => mkTask c' None (_must_cancel t0) (_state t0)) ;;;
                   asyncio.call_soon tid)).
    pres_auto.
  - now apply pres_update_task.
  - now apply pres_update_task.
Qed.

Lemma pres_run_ready (fuel : nat) (w : World) :
  P w -> P (scheduler.run_ready fuel w).
Proof.
  revert w. induction fuel as [| fuel IH]; intros w H; [exact H |].
  cbn. destruct (_ready (loop w)) as [| tid rest]; [exact H |].
  apply IH. apply pres_task_step. now apply P_loop.
Qed.

Lemma pres_elapse dt : preserves P (scheduler.elapse dt).
Proof.
  unfold scheduler.elapse. pres_auto.
  intros w H. cbn.
  match goal with |- context [foldl _ w ?hs] => generalize hs end.
  intros hs. revert w H. induction hs as [| h hs IH]; intros w H; [exact H |].
  cbn. apply IH.
  assert (Hf : preserves P (scheduler.fire h)) by (unfold scheduler.fire; pres_auto).
  now apply Hf.
Qed.

Lemma pres_reply r : preserves P (scheduler.reply r).
Proof.
  unfold scheduler.reply. pres_auto.
  match goal with
  | |- preserves P (modify (with_client (fun c => mkClient _ _ ?rest))) =>
      apply (pres_modify_events _events (fun _ => rest))
  end.
Qed.

Lemma pres_stop_updating_loop : preserves P Party.stop_updating_loop.
Proof. unfold Party.stop_updating_loop. pres_auto. Qed.

Lemma pres_close running : preserves P (Party.close running).
Proof.
  unfold Party.close, asyncio.close. pres_auto; try apply pres_stop_updating_loop.
  intros w H. cbn. apply P_client; [| exact H].
  cbn. unfold transmitted. rewrite omap_app. cbn. now rewrite app_nil_r.
Qed.

Lemma pres_apply_event e :
  is_access e = false -> preserves P (scheduler.apply_event e).
Proof.
  destruct e; cbn; intros He; try discriminate He.
  - apply pres_elapse.
  - apply pres_reply.
  - apply pres_reply.
  - apply pres_on_event.
  - pres_auto.
  - pres_auto.
  - unfold Party.update_loop. pres_auto.
  - apply pres_stop_updating_loop.
  - apply pres_close.
  - apply pres_close.
Qed.

(** A property kept by [update_begin], by disconnecting and by every change
    outside the status and the snapshots is kept along every run in which
    no attribute is assigned or deleted, *)
Lemma frame_without_access (fuel : nat) (es : list scheduler.event) (w : World) :
  forallb (fun e => negb (is_access e)) es = true ->
  P w -> P (scheduler.run fuel es w).
Proof.
  revert w. induction es as [| e es IH]; intros w Hes H; [exact H |].
  cbn in Hes. apply andb_prop in Hes as [He Hes].
  cbn. apply IH; [exact Hes |]. unfold scheduler.run_event.
  apply pres_run_ready. apply pres_apply_event; [| exact H].
  now destruct (is_access e).
Qed.

(** and, if the accessors keep it too, along every run. *)
Lemma frame (fuel : nat) (es : list scheduler.event) (w : World) :
  (forall a v, preserves P (Party.setattr (property_of a) v)) ->
  (forall a, preserves P (Party.delattr (property_of a))) ->
  P w -> P (scheduler.run fuel es w).
Proof.
  intros Hset Hdel. revert w. induction es as [| e es IH]; intros w H; [exact H |].
  cbn. apply IH. unfold scheduler.run_event. apply pres_run_ready.
  destruct (is_access e) eqn:He.
  - destruct e; try discriminate He; cbn; [now apply Hset | now apply Hdel].
  - now apply pres_apply_event.
Qed.

End Frame.

(** ** The status mapping and the snapshots *)

Section StatusInvariant.

Variable pid : Z.

Lemma well_formed_insert (st : gmap string value) (k : string) (v : value) :
  well_formed_status pid st ->
  k ∈ status_keys -> k <> "pid" ->
  (k = "party_size" -> exists a b, v = VList [a; b]) ->
  well_formed_status pid (<[k := v]> st).
Proof.
  intros (Hpid & Hdom & Hpair) Hk Hne Hv. repeat split.
  - now rewrite lookup_insert_ne.
  - intros k' Hsome. destruct (decide (k = k')) as [<- | Hkk]; [exact Hk |].
    rewrite lookup_insert_ne in Hsome by exact Hkk. now apply Hdom.
  - intros v'. destruct (decide (k = "party_size")) as [-> | Hkk].
    + rewrite lookup_insert_eq. intros [= <-]. now apply Hv.
    + rewrite lookup_insert_ne by exact Hkk. apply Hpair.
Qed.

Lemma well_formed_delete (st : gmap string value) (k : string) :
  well_formed_status pid st -> k <> "pid" ->
  well_formed_status pid (delete k st).
Proof.
  intros (Hpid & Hdom & Hpair) Hne. repeat split.
  - now rewrite lookup_delete_ne.
  - intros k' Hsome. apply Hdom.
    destruct (decide (k = k')) as [<- | Hkk].
    + rewrite lookup_delete_eq in Hsome. now destruct Hsome.
    + now rewrite lookup_delete_ne in Hsome.
  - intros v'. destruct (decide (k = "party_size")) as [-> | Hkk].
    + now rewrite lookup_delete_eq.
    + rewrite lookup_delete_ne by exact Hkk. apply Hpair.
Qed.

Lemma status_key_listed (a : attr) : status_key a ∈ status_keys /\ status_key a <> "pid".
Proof.
  split; [| destruct a; discriminate].
  apply list_elem_of_In. destruct a; cbn; tauto.
Qed.

Lemma well_formed_fset (a : attr) (v : value) (self self' : PartyObj) :
  well_formed_status pid (_status self) ->
  Party.fset (property_of a) v self = Ok self' ->
  well_formed_status pid (_status self').
Proof.
  intros Hwf Hset.
  destruct (status_key_listed a) as [Hin Hne].
  assert (Hplain : forall k, k = status_key a -> k <> "party_size" ->
            well_formed_status pid (<[k := v]> (_status self))).
  { intros k -> Hk. apply well_formed_insert; try assumption. congruence. }
  destruct a; cbn in Hset;
    try (injection Hset as <-; cbn; apply Hplain; [reflexivity | discriminate]).
  - unfold Party.party_size_set in Hset.
    destruct (_status self !! "party_size") as [l |] eqn:El.
    + destruct Hwf as (Hpid & Hdom & Hpair). destruct (Hpair l El) as (x & y & ->).
      cbn in Hset. injection Hset as <-. cbn.
      apply well_formed_insert; try assumption; [now repeat split | eauto].
    + injection Hset as <-. cbn. apply well_formed_insert; try assumption. eauto.
  - unfold Party.party_size_set in Hset.
    destruct (_status self !! "party_size") as [l |] eqn:El.
    + destruct Hwf as (Hpid & Hdom & Hpair). destruct (Hpair l El) as (x & y & ->).
      cbn in Hset. injection Hset as <-. cbn.
      apply well_formed_insert; try assumption; [now repeat split | eauto].
    + injection Hset as <-. cbn. apply well_formed_insert; try assumption. eauto.
Qed.

Lemma well_formed_fdel (a : attr) (self self' : PartyObj) :
  well_formed_status pid (_status self) ->
  Party.fdel (property_of a) self = Ok self' ->
  well_formed_status pid (_status self').
Proof.
  intros Hwf Hdel.
  destruct a; cbn in Hdel; try discriminate Hdel;
    match type of Hdel with
    | context [ _status self !! ?k ] =>
        destruct (_status self !! k); [| discriminate Hdel];
        injection Hdel as <-; cbn; apply well_formed_delete; [exact Hwf | discriminate]
    end.
Qed.

Lemma invariant_setattr a v :
  preserves (session_invariant pid) (Party.setattr (property_of a) v).
Proof.
  intros w [Hst Htr]. unfold Party.setattr.
  destruct (Party.fset (property_of a) v (party w)) as [self' |] eqn:E; cbn.
  - split; [| exact Htr]. cbn. eapply well_formed_fset; eassumption.
  - now split.
Qed.

Lemma invariant_delattr a :
  preserves (session_invariant pid) (Party.delattr (property_of a)).
Proof.
  intros w [Hst Htr]. unfold Party.delattr.
  destruct (Party.fdel (property_of a) (party w)) as [self' |] eqn:E; cbn.
  - split; [| exact Htr]. cbn. eapply well_formed_fdel; eassumption.
  - now split.
Qed.

Lemma invariant_update_begin : preserves (session_invariant pid) Party.update_begin.
Proof.
  intros w [Hst Htr]. unfold Party.update_begin, rpc.request_and_read,
    asyncio.create_future, bind, gets, modify, ret. cbn.
  destruct (_rpc (party w)); cbn; [| now split].
  split; [exact Hst |].
  unfold transmitted. cbn. rewrite omap_app. cbn.
  apply Forall_app. split; [exact Htr | now constructor].
Qed.

Lemma invariant_run (fuel : nat) (es : list scheduler.event) (w : World) :
  session_invariant pid w -> session_invariant pid (scheduler.run fuel es w).
Proof.
  apply frame; try (intros; assumption).
  - intros w0 c' Hc [Hst Htr]. split; [exact Hst |].
    unfold transmitted. cbn. rewrite Hc. exact Htr.
  - exact invariant_update_begin.
  - exact invariant_setattr.
  - exact invariant_delattr.
Qed.

Lemma invariant_init : session_invariant pid (Party.__init__ pid).
Proof.
  split; [| constructor]. cbn. repeat split.
  - intros k [v Hk]. apply lookup_singleton_Some in Hk as [<- _].
    apply list_elem_of_here.
  - intros v Hv. apply lookup_singleton_Some in Hv as [Hk _]. discriminate Hk.
Qed.

(** X1: whatever is done with a new session (assignments, deletions,
    updates, loops, waits, [start], [close], in any order and with any
    schedule of the loop), its status mapping and every snapshot it has
    transmitted hold the process id of the constructor under ['pid'], have
    no key other than ['pid'] and the thirteen accessor keys, and hold a
    list of exactly two under ['party_size'] when that key is present. *)
Theorem X1_status_well_formed (fuel : nat) (es : list scheduler.event) :
  let w := scheduler.run fuel es (Party.__init__ pid) in
  well_formed_status pid (_status (party w)) /\
  (forall m, m ∈ transmitted w -> well_formed_status pid m).
Proof.
  destruct (invariant_run fuel es _ invariant_init) as [Hst Htr].
  split; [exact Hst |]. intros m Hm.
  rewrite Forall_forall in Htr. now apply Htr.
Qed.

(** X2: on a session reached from a new one in any way, [size] and [max]
    are set together: either both reads raise [KeyError('party_size')], or
    both return, the two halves of the stored pair; no other error is
    possible. *)
Theorem X2_size_and_max_together (fuel : nat) (es : list scheduler.event) :
  let self := party (scheduler.run fuel es (Party.__init__ pid)) in
  (Party.fget Party.size self = Err (KeyError "party_size") /\
   Party.fget Party.max self = Err (KeyError "party_size")) \/
  (exists a b,
     _status self !! "party_size" = Some (VList [a; b]) /\
     Party.fget Party.size self = Ok a /\ Party.fget Party.max self = Ok b).
Proof.
  destruct (invariant_run fuel es _ invariant_init) as [(_ & _ & Hpair) _].
  cbv zeta. cbn. unfold Party.party_size_get.
  destruct (_status (party (scheduler.run fuel es (Party.__init__ pid))) !! "party_size")
    as [l |] eqn:El.
  - right. destruct (Hpair l eq_refl) as (a & b & ->). now exists a, b.
  - now left.
Qed.

End StatusInvariant.

Lemma X1_status_well_formed_witness :
  _status (party (scheduler.run 10 [scheduler.SetAttr a_size (VInt 1);
                                    scheduler.DelAttr a_join;
                                    scheduler.CreateTask (co_update U_begin)]
                    (Party.__init__ 7))) !! "pid"
  = Some (VInt 7).
Proof.
  destruct (X1_status_well_formed 7 10
              [scheduler.SetAttr a_size (VInt 1);
               scheduler.DelAttr a_join;
               scheduler.CreateTask (co_update U_begin)]) as [Hst _].
  exact (proj1 Hst).
Defined.

Section OnlyAccessorsAndUpdate.

(** X3: only assigning and deleting attributes changes the status mapping:
    along a run without such accesses ([update], [update_loop],
    [wait_for_player_join], [start], [close], the loop and the peer in any
    order) the mapping stays as it was. *)
Theorem X3_status_changed_by_accessors_only (fuel : nat) (es : list scheduler.event)
    (w : World) :
  forallb (fun e => negb (is_access e)) es = true ->
  _status (party (scheduler.run fuel es w)) = _status (party w).
Proof.
  intros Hes.
  apply (frame_without_access (fun w' => _status (party w') = _status (party w)));
    try (intros; assumption); try reflexivity.
  intros w0 H. unfold Party.update_begin, rpc.request_and_read,
    asyncio.create_future, bind, gets, modify, ret. cbn.
  now destruct (_rpc (party w0)).
Qed.

(** X4: a session without client never transmits a status snapshot again,
    whatever is called on it and whatever the loop and the peer do; and it
    stays without client. *)
Theorem X4_disconnected_never_transmits (fuel : nat) (es : list scheduler.event)
    (w : World) :
  _rpc (party w) = None ->
  transmitted (scheduler.run fuel es w) = transmitted w /\
  _rpc (party (scheduler.run fuel es w)) = None.
Proof.
  intros Hnone.
  assert (H : (fun w' => _rpc (party w') = None /\ transmitted w' = transmitted w)
                (scheduler.run fuel es w)).
  { apply frame; try (intros; assumption).
    - intros w0 c' Hc [Hr Ht]. split; [exact Hr |].
      unfold transmitted at 1. cbn. now rewrite Hc.
    - intros w0 [Hr Ht]. now split.
    - intros w0 [Hr Ht]. unfold Party.update_begin, bind, gets. cbn.
      rewrite Hr. now split.
    - intros a v w0 [Hr Ht]. split; [now apply keeps_setattr |].
      unfold Party.setattr. now destruct (Party.fset (property_of a) v (party w0)).
    - intros a w0 [Hr Ht]. split; [now apply keeps_delattr |].
      unfold Party.delattr. now destruct (Party.fdel (property_of a) (party w0)).
    - now split. }
  destruct H as [Hr Ht]. now split.
Qed.

End OnlyAccessorsAndUpdate.

Lemma X3_status_changed_by_accessors_only_witness :
  _status (party (scheduler.run 20
                    [scheduler.UpdateLoop 500; scheduler.Reply; scheduler.Elapse 500;
                     scheduler.Close]
                    (Party.__init__ 7)))
  = {[ "pid" := VInt 7 ]}.
Proof.
  exact (X3_status_changed_by_accessors_only 20
           [scheduler.UpdateLoop 500; scheduler.Reply; scheduler.Elapse 500;
            scheduler.Close]
           (Party.__init__ 7) eq_refl).
Defined.

Lemma X4_disconnected_never_transmits_witness :
  transmitted (scheduler.run 20
                 [scheduler.SetAttr a_state (VStr "idle");
                  scheduler.CreateTask (co_update U_begin);
                  scheduler.UpdateLoop 500; scheduler.Elapse 500]
                 (failed_start 7 false))
  = [].
Proof.
  exact (proj1 (X4_disconnected_never_transmits 20
           [scheduler.SetAttr a_state (VStr "idle");
            scheduler.CreateTask (co_update U_begin);
            scheduler.UpdateLoop 500; scheduler.Elapse 500]
           (failed_start 7 false) eq_refl)).
Defined.

(** ** The accessors *)

Section Accessors.

(** An access reaches the mapping under the key of its attribute only. *)
Lemma perform_other_lookup (self : PartyObj) (o : access) (k : string) :
  k <> status_key (accessed o) ->
  _status (perform self o) !! k = _status self !! k.
Proof.
  intros Hk. destruct o as [a v | a]; cbn in Hk.
  - destruct a; cbn in *;
      try (rewrite lookup_insert_ne; [reflexivity | congruence]);
      unfold Party.party_size_set;
      destruct (_status self !! "party_size") as [l |]; cbn;
      try (rewrite lookup_insert_ne; [reflexivity | congruence]);
      destruct (setitem l _ v); cbn; try reflexivity;
      (rewrite lookup_insert_ne; [reflexivity | congruence]).
  - destruct a; cbn in *; try reflexivity;
      match goal with
      | |- context [ match _status self !! ?key with _ => _ end ] =>
          destruct (_status self !! key); cbn; [| reflexivity];
          rewrite lookup_delete_ne; [reflexivity | congruence]
      end.
Qed.

(** What an attribute reads depends on the entry under its key only. *)
Lemma fget_by_key (b : attr) (s1 s2 : PartyObj) :
  _status s1 !! status_key b = _status s2 !! status_key b ->
  Party.fget (property_of b) s1 = Party.fget (property_of b) s2.
Proof.
  intros H. destruct b; cbn in *; unfold Party.party_size_get; now rewrite H.
Qed.

(** X5: for each of the eleven attributes made by [_status_var],
    assigning never raises, the attribute then reads the value assigned,
    and the session's client and update loop are untouched; and no access
    to one attribute (assignment or deletion, [size] and [max] included)
    changes what an attribute kept under another key reads. *)
Theorem X5_assign_then_read (self : PartyObj) (a : attr) (v : value) :
  a <> a_size -> a <> a_max ->
  (exists self',
     Party.fset (property_of a) v self = Ok self' /\
     Party.fget (property_of a) self' = Ok v /\
     _rpc self' = _rpc self /\ updating_loop self' = updating_loop self) /\
  (forall o b,
     status_key b <> status_key (accessed o) ->
     Party.fget (property_of b) (perform self o) = Party.fget (property_of b) self).
Proof.
  intros Hs Hm. split.
  - destruct a; try congruence; eexists; (split; [reflexivity |]); cbn;
      now rewrite lookup_insert_eq.
  - intros o b Hk. apply fget_by_key. now apply perform_other_lookup.
Qed.

End Accessors.

Lemma X5_assign_then_read_witness :
  let self := after_accesses 7 [Assign a_size (VInt 2)] in
  Party.fget Party.start_time (perform self (Assign a_start_time (VInt 1700000000)))
  = Ok (VInt 1700000000) /\
  Party.fget Party.size (perform self (Assign a_start_time (VInt 1700000000)))
  = Party.fget Party.size self.
Proof.
  destruct (X5_assign_then_read (after_accesses 7 [Assign a_size (VInt 2)])
              a_start_time (VInt 1700000000)) as [(self' & Hset & Hget & _) Hother];
    try discriminate.
  split.
  - cbn in Hset. injection Hset as <-. exact Hget.
  - apply (Hother (Assign a_start_time (VInt 1700000000)) a_size). discriminate.
Defined.

Section Deletion.

Variables (w : World) (a : attr) (old : value).

Hypothesis not_size : a <> a_size.
Hypothesis not_max : a <> a_max.
Hypothesis assigned : _status (party w) !! status_key a = Some old.

(** X6: deleting one of the eleven [_status_var] attributes that is set
    removes its key: the attribute reads [None] again, and deleting once
    more raises [KeyError] of the key and changes nothing; this needs no
    client.  On a session with client the next update transmits the
    mapping without that key and otherwise as it was. *)
Theorem X6_delete_then_update :
  let w1 := exec (Party.delattr (property_of a)) w in
  fst (Party.delattr (property_of a) w) = Ok tt /\
  fst (Party.getattr (property_of a) w1) = Ok VNone /\
  Party.delattr (property_of a) w1 = (Err (KeyError (status_key a)), w1) /\
  (_rpc (party w) = Some the_client ->
   transmitted (exec (Party.update U_begin (Ok VNone)) w1)
   = (transmitted w ++ [delete (status_key a) (_status (party w))])%list).
Proof.
  assert (Hpush : forall w1, _rpc (party w1) = Some the_client ->
            transmitted (exec (Party.update U_begin (Ok VNone)) w1)
            = (transmitted w1 ++ [_status (party w1)])%list).
  { intros w1 H1. unfold exec, Party.update, Party.update_begin, rpc.request_and_read,
      asyncio.create_future, bind, gets, modify, ret. cbn. rewrite H1. cbn.
    unfold transmitted. cbn. now rewrite omap_app. }
  cbv zeta.
  destruct a; try congruence; cbn in assigned;
    unfold exec, Party.delattr, Party.getattr; cbn; rewrite assigned; cbn;
    rewrite lookup_delete_eq; cbn;
    (split; [reflexivity | split; [reflexivity | split; [reflexivity |]]]);
    intros connected;
    match goal with
    | |- transmitted (snd (_ ?w1)) = _ => exact (Hpush w1 connected)
    end.
Qed.

End Deletion.

Lemma X6_delete_then_update_witness :
  (let w := exec (Party.setattr Party.join (VStr "abc")) (Party.__init__ 7) in
   transmitted (exec (Party.update U_begin (Ok VNone))
                  (exec (Party.delattr Party.join) w))
   = [ {[ "pid" := VInt 7 ]} ]) /\
  (let w := exec (Party.setattr Party.join (VStr "abc")) (failed_start 7 false) in
   fst (Party.getattr Party.join (exec (Party.delattr Party.join) w)) = Ok VNone).
Proof.
  split.
  - destruct (X6_delete_then_update
                (exec (Party.setattr Party.join (VStr "abc")) (Party.__init__ 7))
                a_join (VStr "abc")) as (_ & _ & _ & Hsnap).
    + discriminate.
    + discriminate.
    + reflexivity.
    + cbv zeta. cbn [property_of] in Hsnap. rewrite Hsnap; [| reflexivity].
      vm_compute. reflexivity.
  - destruct (X6_delete_then_update
                (exec (Party.setattr Party.join (VStr "abc")) (failed_start 7 false))
                a_join (VStr "abc")) as (_ & Hread & _).
    + discriminate.
    + discriminate.
    + reflexivity.
    + exact Hread.
Defined.

Section PairStays.

(** X7: nothing removes ['party_size']: [size] and [max] have no deleter
    and no other accessor uses the key, so once either has been assigned
    the pair stays in the mapping, whatever is done afterwards. *)
Theorem X7_party_size_never_removed (fuel : nat) (es : list scheduler.event) (w : World) :
  is_Some (_status (party w) !! "party_size") ->
  is_Some (_status (party (scheduler.run fuel es w)) !! "party_size").
Proof.
  apply (frame (fun w' => is_Some (_status (party w') !! "party_size")));
    try (intros; assumption).
  - intros w0 H. unfold Party.update_begin, rpc.request_and_read,
      asyncio.create_future, bind, gets, modify, ret. cbn.
    now destruct (_rpc (party w0)).
  - intros a v w0 H.
    assert (Hsame : _status (party (snd (Party.setattr (property_of a) v w0)))
                    = _status (perform (party w0) (Assign a v))).
    { unfold Party.setattr, perform.
      now destruct (Party.fset (property_of a) v (party w0)). }
    rewrite Hsame. clear Hsame.
    destruct (decide (status_key a = "party_size")) as [Hk | Hk].
    + destruct H as [l Hl]. destruct a; try discriminate Hk; cbn;
        unfold Party.party_size_set; rewrite Hl;
        destruct (setitem l _ v); cbn;
        first [ rewrite lookup_insert_eq; eauto | rewrite Hl; eauto ].
    + rewrite perform_other_lookup; [exact H | cbn; congruence].
  - intros a w0 H.
    assert (Hsame : _status (party (snd (Party.delattr (property_of a) w0)))
                    = _status (perform (party w0) (Delete a))).
    { unfold Party.delattr, perform.
      now destruct (Party.fdel (property_of a) (party w0)). }
    rewrite Hsame. clear Hsame.
    destruct (decide (status_key a = "party_size")) as [Hk | Hk].
    + destruct a; try discriminate Hk; exact H.
    + rewrite perform_other_lookup; [exact H | cbn; congruence].
Qed.

End PairStays.

Lemma X7_party_size_never_removed_witness :
  is_Some (_status (party (scheduler.run 20
                             [scheduler.DelAttr a_size; scheduler.DelAttr a_max;
                              scheduler.Close]
                             (exec (Party.setattr Party.max (VInt 4)) (Party.__init__ 7))))
           !! "party_size").
Proof.
  apply (X7_party_size_never_removed 20
           [scheduler.DelAttr a_size; scheduler.DelAttr a_max; scheduler.Close]
           (exec (Party.setattr Party.max (VInt 4)) (Party.__init__ 7))).
  now exists (VList [VInt 4; VInt 4]).
Defined.

(** ** The update loop *)

Section UpdateLoopControl.

(** X8: [leloop] returns only when [CancelledError] is thrown at one of its
    awaits.  Resumed normally, at any of its points and in any world, it
    does not return: it goes on to its next await, and on a session
    without client, where nothing is pushed, it always suspends again.  A
    [CancelledError] thrown at one of its awaits makes it return [None];
    thrown before its first step it is raised.  Any other exception thrown
    into it is raised. *)
Theorem X8_leloop_ends_by_cancellation_only (delay : Z) (pc : leloop_pc) (w : World) :
  (forall v r, fst (Party.leloop delay pc (Ok v) w) <> Ok (asyncio.Returned r)) /\
  (_rpc (party w) = None ->
   forall v, exists c sp w',
     Party.leloop delay pc (Ok v) w = (Ok (asyncio.Suspended c sp), w') /\
     client w' = client w) /\
  (pc <> L_begin ->
   fst (Party.leloop delay pc (Err CancelledError) w) = Ok (asyncio.Returned VNone)) /\
  fst (Party.leloop delay L_begin (Err CancelledError) w) = Err CancelledError /\
  (forall e, is_cancelled e = false -> fst (Party.leloop delay pc (Err e) w) = Err e).
Proof.
  assert (Hsleep : forall w0, exists c sp w',
            Party.leloop_sleep delay w0 = (Ok (asyncio.Suspended c sp), w') /\
            client w' = client w0).
  { intros w0. unfold Party.leloop_sleep, asyncio.sleep, asyncio.create_future,
      bind, gets, modify, ret.
    destruct (delay <=? 0); cbn; eauto. }
  assert (Hiter : forall w0, exists c sp w',
            Party.leloop_iteration delay w0 = (Ok (asyncio.Suspended c sp), w')).
  { intros w0. unfold Party.leloop_iteration, Party.update_begin, rpc.request_and_read,
      asyncio.create_future, bind, gets, modify, ret. cbn.
    destruct (_rpc (party w0)); cbn; [eauto |].
    destruct (Hsleep w0) as (c & sp & w' & H & _). eauto. }
  assert (Hiter0 : _rpc (party w) = None -> exists c sp w',
            Party.leloop_iteration delay w = (Ok (asyncio.Suspended c sp), w') /\
            client w' = client w).
  { intros Hn. unfold Party.leloop_iteration, Party.update_begin, bind, gets, ret.
    cbn. rewrite Hn. apply Hsleep. }
  split; [| split; [| split; [| split]]].
  - intros v r.
    assert (Hs : exists c sp w',
              Party.leloop delay pc (Ok v) w = (Ok (asyncio.Suspended c sp), w')).
    { destruct pc; cbn; auto; destruct (Hsleep w) as (c & sp & w' & H & _); eauto. }
    destruct Hs as (c & sp & w' & ->). discriminate.
  - intros Hn v. destruct pc; cbn; auto.
  - intros Hpc. destruct pc; try congruence; reflexivity.
  - reflexivity.
  - intros e He. unfold Party.leloop, Party.except_cancelled, bind.
    destruct pc; cbn; try rewrite He; reflexivity.
Qed.

End UpdateLoopControl.

Lemma X8_leloop_ends_by_cancellation_only_witness :
  fst (Party.leloop 500 (L_sleep 0) (Err CancelledError) (Party.__init__ 7))
  = Ok (asyncio.Returned VNone) /\
  fst (Party.leloop 500 (L_sleep 0) (Err InvalidStateError) (Party.__init__ 7))
  = Err InvalidStateError /\
  (exists c sp w',
     Party.leloop 500 (L_sleep 1) (Ok VNone) (failed_start 7 false)
     = (Ok (asyncio.Suspended c sp), w') /\
     client w' = client (failed_start 7 false)).
Proof.
  split; [| split].
  - destruct (X8_leloop_ends_by_cancellation_only 500 (L_sleep 0) (Party.__init__ 7))
      as (_ & _ & Hc & _).
    apply Hc. discriminate.
  - destruct (X8_leloop_ends_by_cancellation_only 500 (L_sleep 0) (Party.__init__ 7))
      as (_ & _ & _ & _ & He).
    apply He. reflexivity.
  - destruct (X8_leloop_ends_by_cancellation_only 500 (L_sleep 1) (failed_start 7 false))
      as (_ & Hn & _).
    apply Hn; reflexivity.
Defined.

Section PeriodicPush.

Lemma run_ready_idle (fuel : nat) (w : World) :
  _ready (loop w) = [] -> scheduler.run_ready fuel w = w.
Proof. intros H. destruct fuel; cbn; [reflexivity | now rewrite H]. Qed.

Lemma run_ready_next (fuel tid : nat) (rest : list nat) (w : World) :
  _ready (loop w) = tid :: rest ->
  scheduler.run_ready (S fuel) w
  = scheduler.run_ready fuel
      (exec (scheduler.task_step tid) (with_loop (set_ready rest) w)).
Proof. intros H. cbn. now rewrite H. Qed.

Lemma waiters_alone (c : coro) (f : nat) :
  asyncio.waiters f [mkTask c (Some f) false PENDING] = [0%nat].
Proof. unfold asyncio.waiters. cbn. now rewrite bool_decide_eq_true_2. Qed.

Variable delay : Z.
Variable st : gmap string value.

Lemma push_answered (w : World) :
  0 < delay -> pushing delay st w ->
  asleep delay st (scheduler.run_event 20 w scheduler.Reply) /\
  transmitted (scheduler.run_event 20 w scheduler.Reply) = transmitted w.
Proof.
  intros Hd (io & Hts & Hio & Hsch & Hrdy & Hrd & Hrpc & Hst).
  destruct w as [[ev snt rd] [r st' ul] [T rdy sch ts fs] n].
  cbn in Hts, Hio, Hsch, Hrdy, Hrd, Hrpc, Hst. subst.
  assert (Hlt : (io < length fs)%nat) by (eapply lookup_lt_Some; exact Hio).
  set (t := mkTask (co_leloop delay (L_update io)) (Some io) false PENDING).
  assert (H1 : exec (scheduler.apply_event scheduler.Reply)
                 (mkWorld (mkClient ev snt [io]) (mkParty (Some the_client) st ul)
                          (mkLoop T [] [] [t] fs) n)
               = mkWorld (mkClient ev snt []) (mkParty (Some the_client) st ul)
                         (mkLoop T [0%nat] [] [t] (<[io := FINISHED (Ok VNone)]> fs)) n).
  { unfold exec, scheduler.apply_event, scheduler.reply, asyncio.set_result,
      asyncio.state_of, asyncio.settle, asyncio.schedule_callbacks,
      bind, gets, modify, ret. cbn. rewrite Hio. cbn. rewrite Hio. cbn.
    unfold with_loop, with_client. cbn. subst t.
    now rewrite bool_decide_eq_true_2 by reflexivity. }
  unfold scheduler.run_event. rewrite H1. clear H1.
  rewrite (run_ready_next 19 0 []) by reflexivity.
  set (fs1 := <[io := FINISHED (Ok VNone)]> fs).
  assert (Hio1 : fs1 !! io = Some (FINISHED (Ok VNone)))
    by (subst fs1; now apply list_lookup_insert_eq).
  assert (H2 : exec (scheduler.task_step 0)
                 (with_loop (set_ready [])
                    (mkWorld (mkClient ev snt []) (mkParty (Some the_client) st ul)
                             (mkLoop T [0%nat] [] [t] fs1) n))
               = mkWorld (mkClient ev snt []) (mkParty (Some the_client) st ul)
                   (mkLoop T [] [(T + delay, length fs1)]
                      [mkTask (co_leloop delay (L_sleep (length fs1)))
                              (Some (length fs1)) false PENDING]
                      (fs1 ++ [PENDING])) n).
  { unfold exec, scheduler.task_step. cbn. unfold scheduler.step_input. cbn.
    rewrite Hio1. cbn.
    unfold Party.leloop_sleep, asyncio.sleep, asyncio.create_future, bind, gets, modify, ret.
    apply Z.leb_gt in Hd. rewrite Hd. cbn.
    unfold asyncio.state_of, bind, gets. cbn.
    now rewrite (list_lookup_middle fs1 [] PENDING (length fs1)) by reflexivity. }
  rewrite H2. clear H2. rewrite run_ready_idle by reflexivity.
  split; [| reflexivity].
  exists (length fs1). cbn. repeat split.
  apply (list_lookup_middle _ []). reflexivity.
Qed.

Lemma delay_passed (w : World) :
  asleep delay st w ->
  pushing delay st (scheduler.run_event 20 w (scheduler.Elapse delay)) /\
  transmitted (scheduler.run_event 20 w (scheduler.Elapse delay))
  = (transmitted w ++ [st])%list.
Proof.
  intros (t & Hts & Ht & Hsch & Hrdy & Hrd & Hrpc & Hst).
  destruct w as [[ev snt rd] [r st' ul] [T rdy sch ts fs] n].
  cbn in Hts, Ht, Hsch, Hrdy, Hrd, Hrpc, Hst. subst.
  assert (Hlt : (t < length fs)%nat) by (eapply lookup_lt_Some; exact Ht).
  set (fs1 := <[t := FINISHED (Ok VNone)]> fs).
  assert (H1 : exec (scheduler.apply_event (scheduler.Elapse delay))
                 (mkWorld (mkClient ev snt []) (mkParty (Some the_client) st ul)
                    (mkLoop T [] [(T + delay, t)]
                       [mkTask (co_leloop delay (L_sleep t)) (Some t) false PENDING] fs) n)
               = mkWorld (mkClient ev snt []) (mkParty (Some the_client) st ul)
                   (mkLoop (T + delay) [0%nat] []
                      [mkTask (co_leloop delay (L_sleep t)) (Some t) false PENDING] fs1) n).
  { unfold exec, scheduler.apply_event, scheduler.elapse, bind, gets, modify, ret. cbn.
    rewrite decide_False by lia. rewrite decide_True by lia. cbn.
    unfold exec, scheduler.fire, asyncio.set_result, asyncio.state_of, asyncio.settle,
      asyncio.schedule_callbacks, bind, gets, modify, ret. cbn.
    rewrite Ht. cbn. rewrite Ht. cbn.
    unfold with_loop. cbn. now rewrite bool_decide_eq_true_2 by reflexivity. }
  unfold scheduler.run_event. rewrite H1. clear H1.
  rewrite (run_ready_next 19 0 []) by reflexivity.
  assert (Ht1 : fs1 !! t = Some (FINISHED (Ok VNone)))
    by (subst fs1; now apply list_lookup_insert_eq).
  assert (H2 : exec (scheduler.task_step 0)
                 (with_loop (set_ready [])
                    (mkWorld (mkClient ev snt []) (mkParty (Some the_client) st ul)
                       (mkLoop (T + delay) [0%nat] []
                          [mkTask (co_leloop delay (L_sleep t)) (Some t) false PENDING]
                          fs1) n))
               = mkWorld (mkClient ev (snt ++ [SetActivity st]) [length fs1])
                   (mkParty (Some the_client) st ul)
                   (mkLoop (T + delay) [] []
                      [mkTask (co_leloop delay (L_update (length fs1)))
                              (Some (length fs1)) false PENDING]
                      (fs1 ++ [PENDING])) n).
  { unfold exec, scheduler.task_step. cbn. unfold scheduler.step_input. cbn.
    rewrite Ht1. cbn.
    unfold Party.leloop_iteration, Party.update_begin, rpc.request_and_read,
      asyncio.create_future, bind, gets, modify, ret. cbn.
    unfold asyncio.state_of, bind, gets. cbn.
    now rewrite (list_lookup_middle fs1 [] PENDING (length fs1)) by reflexivity. }
  rewrite H2. clear H2. rewrite run_ready_idle by reflexivity.
  split.
  - exists (length fs1). cbn. repeat split.
    apply (list_lookup_middle _ []). reflexivity.
  - unfold transmitted. cbn. now rewrite omap_app.
Qed.

Lemma loop_started (w : World) :
  tasks (loop w) = [] -> _ready (loop w) = [] -> _scheduled (loop w) = [] ->
  reading (client w) = [] -> _rpc (party w) = Some the_client ->
  _status (party w) = st ->
  pushing delay st (scheduler.run_event 20 w (scheduler.UpdateLoop delay)) /\
  transmitted (scheduler.run_event 20 w (scheduler.UpdateLoop delay))
  = (transmitted w ++ [st])%list.
Proof.
  intros Hts Hrdy Hsch Hrd Hrpc Hst.
  destruct w as [[ev snt rd] [r st' ul] [T rdy sch ts fs] n].
  cbn in Hts, Hsch, Hrdy, Hrd, Hrpc, Hst. subst.
  unfold scheduler.run_event.
  rewrite (run_ready_next 19 0 []) by reflexivity.
  assert (H2 : exec (scheduler.task_step 0)
                 (with_loop (set_ready [])
                    (exec (scheduler.apply_event (scheduler.UpdateLoop delay))
                       (mkWorld (mkClient ev snt []) (mkParty (Some the_client) st ul)
                          (mkLoop T [] [] [] fs) n)))
               = mkWorld (mkClient ev (snt ++ [SetActivity st]) [length fs])
                   (mkParty (Some the_client) st (Some 0%nat))
                   (mkLoop T [] []
                      [mkTask (co_leloop delay (L_update (length fs)))
                              (Some (length fs)) false PENDING]
                      (fs ++ [PENDING])) n).
  { unfold exec, scheduler.task_step. cbn.
    unfold Party.leloop_iteration, Party.update_begin, rpc.request_and_read,
      asyncio.create_future, bind, gets, modify, ret. cbn.
    unfold asyncio.state_of, bind, gets. cbn.
    now rewrite (list_lookup_middle fs [] PENDING (length fs)) by reflexivity. }
  rewrite H2. clear H2. rewrite run_ready_idle by reflexivity.
  split.
  - exists (length fs). cbn. repeat split.
    apply (list_lookup_middle _ []). reflexivity.
  - unfold transmitted. cbn. now rewrite omap_app.
Qed.

Lemma periods_pushed (n : nat) (w : World) :
  0 < delay -> asleep delay st w ->
  asleep delay st (scheduler.run 20 (periods n delay) w) /\
  transmitted (scheduler.run 20 (periods n delay) w)
  = (transmitted w ++ replicate n st)%list.
Proof.
  intros Hd. revert w. induction n as [| n IH]; intros w Hw.
  - cbn. now rewrite app_nil_r.
  - destruct (delay_passed w Hw) as [Hp Htr1].
    destruct (push_answered _ Hd Hp) as [Ha Htr2].
    destruct (IH _ Ha) as [Hfin Htr3].
    change (scheduler.run 20 (periods (S n) delay) w)
      with (scheduler.run 20 (periods n delay)
              (scheduler.run_event 20
                 (scheduler.run_event 20 w (scheduler.Elapse delay)) scheduler.Reply)).
    split; [exact Hfin |].
    rewrite Htr3, Htr2, Htr1. cbn. now rewrite <- app_assoc.
Qed.

Variable w : World.

Hypothesis positive : 0 < delay.
Hypothesis no_task : tasks (loop w) = [].
Hypothesis nothing_ready : _ready (loop w) = [].
Hypothesis nothing_scheduled : _scheduled (loop w) = [].
Hypothesis nothing_outstanding : reading (client w) = [].
Hypothesis connected : _rpc (party w) = Some the_client.
Hypothesis status : _status (party w) = st.

(** X9: on a connected session [update_loop(delay)] with a positive delay
    pushes the status at once and then once per delay, for as long as the
    peer answers: after [n] periods [n + 1] snapshots of the status have
    been transmitted, and the loop sleeps until the next one. *)
Theorem X9_update_loop_pushes_every_delay (n : nat) :
  let w' := scheduler.run 20
              (scheduler.UpdateLoop delay :: scheduler.Reply :: periods n delay) w in
  transmitted w' = (transmitted w ++ replicate (S n) st)%list /\
  task_state w' 0 = Some PENDING /\
  asleep delay st w'.
Proof.
  destruct (loop_started w no_task nothing_ready nothing_scheduled nothing_outstanding
              connected status) as [Hp Htr0].
  destruct (push_answered _ positive Hp) as [Ha Htr1].
  destruct (periods_pushed n _ positive Ha) as [Hfin Htr2].
  cbv zeta.
  change (scheduler.run 20
            (scheduler.UpdateLoop delay :: scheduler.Reply :: periods n delay) w)
    with (scheduler.run 20 (periods n delay)
            (scheduler.run_event 20
               (scheduler.run_event 20 w (scheduler.UpdateLoop delay)) scheduler.Reply)).
  split; [| split; [| exact Hfin]].
  - rewrite Htr2, Htr1, Htr0. cbn. now rewrite <- app_assoc.
  - destruct Hfin as (t & Hts & _). unfold task_state. now rewrite Hts.
Qed.

End PeriodicPush.

Lemma X9_update_loop_pushes_every_delay_witness :
  transmitted (scheduler.run 20
                 (scheduler.UpdateLoop 500 :: scheduler.Reply :: periods 3 500)
                 (Party.__init__ 7))
  = replicate 4 {[ "pid" := VInt 7 ]}.
Proof.
  refine (proj1 (X9_update_loop_pushes_every_delay 500 {[ "pid" := VInt 7 ]}
                   (Party.__init__ 7) _ _ _ _ _ _ _ 3%nat)); reflexivity.
Defined.

Section StoppingTheLoop.

Variables (w : World) (tid f : nat) (delay : Z) (pc : leloop_pc).

Hypothesis current : updating_loop (party w) = Some tid.
Hypothesis suspended :
  tasks (loop w) !! tid = Some (mkTask (co_leloop delay pc) (Some f) false PENDING).
Hypothesis at_await : pc = L_update f \/ pc = L_sleep f.
Hypothesis pending : futures (loop w) !! f = Some PENDING.

(** X10: [stop_updating_loop] on a loop that is suspended in its push or
    in its sleep schedules its wake-up; at that step the loop returns: its
    task ends with result [None], not as a cancelled task, nothing is sent,
    the session is untouched and the timer of an interrupted sleep is
    dropped.  Stopping again afterwards changes nothing. *)
Theorem X10_stop_ends_the_loop_normally :
  let w1 := exec Party.stop_updating_loop w in
  let w2 := exec (scheduler.task_step tid) w1 in
  tid ∈ _ready (loop w1) /\
  task_state w2 tid = Some (FINISHED (Ok VNone)) /\
  client w2 = client w /\
  party w2 = party w /\
  (pc = L_sleep f -> forall h, h ∈ _scheduled (loop w2) -> snd h <> f) /\
  exec Party.stop_updating_loop w2 = w2.
Proof.
  assert (Hlt : (f < length (futures (loop w)))%nat)
    by (eapply lookup_lt_Some; exact pending).
  assert (H1 : exec Party.stop_updating_loop w
    = with_loop (fun l => set_ready (_ready l ++ asyncio.waiters f (tasks l)) l)
        (with_loop (fun l => set_futures (<[f := CANCELLED]> (futures l)) l) w)).
  { unfold exec, Party.stop_updating_loop, asyncio.cancel, bind, gets. cbn.
    rewrite current. cbn. rewrite suspended. cbn.
    unfold asyncio.cancel_future, asyncio.state_of, bind, gets. cbn.
    rewrite pending. reflexivity. }
  cbv zeta. rewrite H1. clear H1.
  set (w1 := with_loop _ (with_loop _ w)).
  assert (Hstep : exec (scheduler.task_step tid) w1
    = with_loop (set_tasks
                   (alter (fun t => mkTask (_coro t) None false (FINISHED (Ok VNone))) tid
                      (alter (fun t => mkTask (_coro t) None false (_state t)) tid
                         (tasks (loop w)))))
        (with_loop (fun l => set_scheduled
                               (match pc with
                                | L_sleep _ => filter (fun h => snd h <> f) (_scheduled l)
                                | _ => _scheduled l
                                end) l) w1)).
  { unfold exec, scheduler.task_step. subst w1. cbn. rewrite suspended. cbn.
    unfold scheduler.step_input. cbn. rewrite list_lookup_insert_eq by exact Hlt.
    destruct at_await as [-> | ->]; cbn; unfold with_loop, set_tasks, set_scheduled; cbn;
      destruct w as [c p [T rdy sch ts fs] n]; reflexivity. }
  rewrite Hstep. clear Hstep. subst w1.
  split; [| split; [| split; [| split; [| split]]]].
  - cbn. apply elem_of_app. right.
    eapply waiters_elem; [exact suspended | reflexivity | reflexivity].
  - unfold task_state. cbn. now rewrite !list_lookup_alter_eq, suspended.
  - reflexivity.
  - reflexivity.
  - intros Hpc h Hh. cbn in Hh. rewrite Hpc in Hh.
    now apply list_elem_of_filter in Hh as [Hh _].
  - unfold exec, Party.stop_updating_loop, asyncio.cancel, bind, gets. cbn.
    rewrite current. cbn. rewrite !list_lookup_alter_eq, suspended. reflexivity.
Qed.

End StoppingTheLoop.

Lemma X10_stop_ends_the_loop_normally_witness :
  let w := scheduler.run 20 [scheduler.UpdateLoop 500; scheduler.Reply] (Party.__init__ 7) in
  task_state (exec (scheduler.task_step 0) (exec Party.stop_updating_loop w)) 0
  = Some (FINISHED (Ok VNone)).
Proof.
  refine (proj1 (proj2 (X10_stop_ends_the_loop_normally
                          (scheduler.run 20 [scheduler.UpdateLoop 500; scheduler.Reply]
                             (Party.__init__ 7))
                          0 1 500 (L_sleep 1) _ _ _ _))).
  - reflexivity.
  - reflexivity.
  - right. reflexivity.
  - reflexivity.
Defined.

Section StoppedBeforeStarting.

Variables (w : World) (delay : Z).

(** X11: a loop that is stopped before the event loop has run it never
    starts: [update_loop] followed at once by [stop_updating_loop] leaves a
    task that ends cancelled at its first step, without a push, without a
    future and without a change to the session's status. *)
Theorem X11_stopped_before_first_push :
  let new := length (tasks (loop w)) in
  let w1 := exec Party.stop_updating_loop (exec (Party.update_loop delay) w) in
  let w2 := exec (scheduler.task_step new) w1 in
  task_state w2 new = Some CANCELLED /\
  client w2 = client w /\
  _status (party w2) = _status (party w) /\
  futures (loop w2) = futures (loop w).
Proof.
  cbv zeta.
  assert (Hnew : (tasks (loop w) ++ [mkTask (co_leloop delay L_begin) None false PENDING])%list
                   !! length (tasks (loop w))
                 = Some (mkTask (co_leloop delay L_begin) None false PENDING))
    by (apply list_lookup_middle; reflexivity).
  unfold Party.update_loop, Party.stop_updating_loop, asyncio.create_task, asyncio.cancel,
    asyncio.update_task, scheduler.task_step, exec, bind, gets, modify, ret. cbn.
  rewrite Hnew. cbn. rewrite list_lookup_alter_eq, Hnew. cbn.
  unfold task_state. cbn. rewrite !list_lookup_alter_eq, Hnew. cbn.
  repeat split.
Qed.

Hypothesis never_sleeps : delay <= 0.
Hypothesis disconnected : _rpc (party w) = None.
Hypothesis idle : _ready (loop w) = [].

(** X12: on a session without client an update loop with a delay of zero
    or less never waits for anything: [update] returns at once and
    [sleep] only yields, so the loop is scheduled again after every step
    and the event loop never runs out of work, however long it runs. *)
Theorem X12_loop_without_client_and_delay_spins (fuel : nat) :
  let new := length (tasks (loop w)) in
  let w' := scheduler.run_ready fuel (exec (Party.update_loop delay) w) in
  _ready (loop w') = [new] /\
  task_state w' new = Some PENDING /\
  client w' = client w.
Proof.
  cbv zeta.
  set (new := length (tasks (loop w))).
  assert (Hinv : forall w0,
            (exists pc, (pc = L_begin \/ pc = L_sleep0) /\
               tasks (loop w0) !! new
               = Some (mkTask (co_leloop delay pc) None false PENDING)) ->
            _ready (loop w0) = [new] -> _rpc (party w0) = None -> client w0 = client w ->
            _ready (loop (scheduler.run_ready fuel w0)) = [new] /\
            task_state (scheduler.run_ready fuel w0) new = Some PENDING /\
            client (scheduler.run_ready fuel w0) = client w).
  { induction fuel as [| fuel IH]; intros w0 (pc & Hpc & Ht) Hr Hd Hc.
    - cbn. unfold task_state. rewrite Ht. now repeat split.
    - cbn [scheduler.run_ready]. rewrite Hr.
      assert (Hle : (delay <=? 0) = true) by now apply Z.leb_le.
      assert (Hstep : exec (scheduler.task_step new) (with_loop (set_ready []) w0)
        = with_loop (fun l => set_ready [new]
                       (set_tasks
                          (alter (fun t => mkTask (co_leloop delay L_sleep0) None
                                             (_must_cancel t) (_state t)) new
                             (alter (fun t => mkTask (_coro t) None false (_state t)) new
                                (tasks l))) l)) w0).
      { unfold exec, scheduler.task_step. cbn. rewrite Ht. cbn.
        destruct Hpc as [-> | ->]; cbn;
          unfold Party.leloop_iteration, Party.update_begin, Party.leloop_sleep,
            asyncio.sleep, bind, gets, ret; cbn; rewrite Hd; cbn; rewrite Hle; cbn;
          destruct w0 as [c p [T rdy sch ts fs] n]; reflexivity. }
      rewrite Hstep. apply IH; [| reflexivity | exact Hd | exact Hc].
      exists L_sleep0. split; [now right |].
      cbn. now rewrite !list_lookup_alter_eq, Ht. }
  apply Hinv.
  - exists L_begin. split; [now left |]. cbn. apply list_lookup_middle. reflexivity.
  - cbn. now rewrite idle.
  - exact disconnected.
  - reflexivity.
Qed.

End StoppedBeforeStarting.

Lemma X12_loop_without_client_and_delay_spins_witness :
  _ready (loop (scheduler.run_ready 1000
                  (exec (Party.update_loop 0) (failed_start 7 false))))
  = [1%nat].
Proof.
  refine (proj1 (X12_loop_without_client_and_delay_spins (failed_start 7 false) 0
                   _ _ _ 1000)).
  - discriminate.
  - reflexivity.
  - reflexivity.
Defined.

(** ** Connecting and closing *)

Section StartPolicy.

Variables (w : World) (raise_on_fail : bool).

(** X13: [start] intercepts [InvalidPipe] and nothing else.  Any other
    exception raised by the client's [start] leaves [start] whatever
    [raise_on_fail] is, and the session is as before.  On a session without
    client, as after a failure that was swallowed, the first step of
    [start] raises [AttributeError] before anything is sent, also when
    [raise_on_fail] is false: a failed [start] cannot be retried. *)
Theorem X13_start_intercepts_invalid_pipe_only :
  (forall io e, is_invalid_pipe e = false ->
     Party.start raise_on_fail (S_start io) (Err e) w = (Err e, w)) /\
  (forall io v,
     Party.start raise_on_fail (S_start io) (Ok v) w = (Ok (asyncio.Returned VNone), w)) /\
  (_rpc (party w) = None ->
   Party.start raise_on_fail S_begin (Ok VNone) w = (Err (AttributeError "start"), w) /\
   forall tid,
     tasks (loop w) !! tid
     = Some (mkTask (co_start raise_on_fail S_begin) None false PENDING) ->
     task_state (exec (scheduler.task_step tid) w) tid
     = Some (FINISHED (Err (AttributeError "start"))) /\
     client (exec (scheduler.task_step tid) w) = client w).
Proof.
  split; [| split].
  - intros io e He. cbn. now rewrite He.
  - reflexivity.
  - intros Hnone.
    assert (Hraise : Party.start raise_on_fail S_begin (Ok VNone) w
                     = (Err (AttributeError "start"), w)).
    { unfold Party.start, Party.rpc_attr, bind, gets. cbn. now rewrite Hnone. }
    split; [exact Hraise |].
    intros tid Htid. unfold exec, scheduler.task_step, task_state. rewrite Htid. cbn.
    unfold Party.rpc_attr, bind, gets. cbn. rewrite Hnone. cbn.
    now rewrite !list_lookup_alter_eq, Htid.
Qed.

End StartPolicy.

Lemma X13_start_intercepts_invalid_pipe_only_witness :
  task_state
    (scheduler.run_event 20 (failed_start 7 false)
       (scheduler.CreateTask (co_start false S_begin))) 1
  = Some (FINISHED (Err (AttributeError "start"))) /\
  Party.start false (S_start 0) (Err (RuntimeError "pipe broken")) (Party.__init__ 7)
  = (Err (RuntimeError "pipe broken"), Party.__init__ 7).
Proof.
  split.
  - destruct (X13_start_intercepts_invalid_pipe_only
                (exec (scheduler.apply_event (scheduler.CreateTask (co_start false S_begin)))
                   (failed_start 7 false)) false) as (_ & _ & Hretry).
    destruct (Hretry eq_refl) as [_ Hstep].
    exact (proj1 (Hstep 1%nat eq_refl)).
  - destruct (X13_start_intercepts_invalid_pipe_only (Party.__init__ 7) false)
      as (Hother & _).
    now apply Hother.
Defined.

Section Closing.


Variable w : World.

Hypothesis loop_task_exists :
  forall tid, updating_loop (party w) = Some tid ->
    exists t, tasks (loop w) !! tid = Some t /\
              forall f, _fut_waiter t = Some f -> is_Some (futures (loop w) !! f).


End Closing.


(** ** Registering and dispatching events *)

Section RegisterEvent.

Variables (w : World) (event : string) (f : func).

(** X15: [register_event] first asks the peer to subscribe to the event
    under the name as given, and registers nothing yet.  When the answer
    has come it stores the function under the lower-cased name, replacing
    what was stored there and leaving the other names alone, so that the
    event is dispatched to the function however its name is cased.  When
    the subscription fails the exception is raised and nothing is stored. *)
Theorem X15_register_event_stores_lower_case :
  let w1 := exec (rpc.register_event event f R_begin (Ok VNone)) w in
  (_events (client w1) = _events (client w) /\
   sent (client w1) = (sent (client w) ++ [Subscribe event])%list) /\
  (forall io v,
     let w2 := exec (rpc.register_event event f (R_subscribe io) (Ok v)) w1 in
     _events (client w2) !! lower event = Some f /\
     (forall k, k <> lower event -> _events (client w2) !! k = _events (client w) !! k) /\
     (forall evt data, lower evt = lower event ->
        rpc.on_event evt data w2 = rpc.call f data w2)) /\
  (forall io e,
     rpc.register_event event f (R_subscribe io) (Err e) w1 = (Err e, w1)).
Proof.
  cbv zeta. split; [split; reflexivity |]. split; [| reflexivity].
  intros io v. cbn. split; [apply lookup_insert_eq |]. split.
  - intros k Hk. now rewrite lookup_insert_ne by congruence.
  - intros evt data Hevt. unfold rpc.on_event, bind, gets. cbn.
    now rewrite Hevt, lookup_insert_eq.
Qed.

End RegisterEvent.

Lemma X15_register_event_stores_lower_case_witness :
  let w1 := exec (rpc.register_event "ACTIVITY_SPECTATE" (handler 0) R_begin (Ok VNone))
              (Party.__init__ 7) in
  let w2 := exec (rpc.register_event "ACTIVITY_SPECTATE" (handler 0) (R_subscribe 0)
                    (Ok VNone)) w1 in
  rpc.on_event "Activity_Spectate" {[ "secret" := VStr "s" ]} w2
  = rpc.call (handler 0) {[ "secret" := VStr "s" ]} w2.
Proof.
  destruct (X15_register_event_stores_lower_case (Party.__init__ 7) "ACTIVITY_SPECTATE"
              (handler 0)) as (_ & Hstored & _).
  destruct (Hstored 0%nat VNone) as (_ & _ & Hdispatch).
  apply Hdispatch. reflexivity.
Defined.

Section HandlerErrors.

Variables (w : World) (fut : nat) (data : gmap string value).

Hypothesis registered : _events (client w) !! "activity_join" = Some (handler fut).

(** X16: the handler of [wait_for_player_join] reads [secret['secret']]
    unguarded and resolves the future unguarded.  For a join request whose
    payload has no ['secret'] it raises [KeyError]; for one that arrives
    when the future is no longer pending, as after the wait was cancelled
    (the handler stays registered then), it raises [InvalidStateError].
    Nothing in the handler or in [on_event] catches either: the exception
    leaves [on_event], and the future and the tasks are then as they were
    before the request. *)
Theorem X16_handler_errors_leave_on_event :
  (data !! "secret" = None ->
   rpc.on_event "ACTIVITY_JOIN" data w = (Err (KeyError "secret"), w)) /\
  (forall s st,
     data !! "secret" = Some s -> futures (loop w) !! fut = Some st -> done st = true ->
     rpc.on_event "ACTIVITY_JOIN" data w = (Err InvalidStateError, w)).
Proof.
  split.
  - intros Hnone.
    unfold rpc.on_event, bind, gets. rewrite lower_activity_join, registered.
    cbn. now rewrite Hnone.
  - intros s st Hs Hst Hdone.
    unfold rpc.on_event, bind, gets. rewrite lower_activity_join, registered.
    cbn. rewrite Hs. unfold asyncio.set_result, asyncio.state_of, bind, gets. cbn.
    rewrite Hst. destruct st; [discriminate Hdone | reflexivity | reflexivity].
Qed.

End HandlerErrors.

Lemma X16_handler_errors_leave_on_event_witness :
  rpc.on_event "ACTIVITY_JOIN" {[ "token" := VStr "s3cr3t" ]} (wait_registered 7 cb_count 500)
  = (Err (KeyError "secret"), wait_registered 7 cb_count 500) /\
  rpc.on_event "ACTIVITY_JOIN" {[ "secret" := VStr "s3cr3t" ]} cancelled_wait
  = (Err InvalidStateError, cancelled_wait).
Proof.
  split.
  - destruct (X16_handler_errors_leave_on_event (wait_registered 7 cb_count 500) 1
                {[ "token" := VStr "s3cr3t" ]}) as [Hmissing _]; [reflexivity |].
    exact (Hmissing eq_refl).
  - destruct (X16_handler_errors_leave_on_event cancelled_wait 1
                {[ "secret" := VStr "s3cr3t" ]}) as [_ Hstale]; [reflexivity |].
    exact (Hstale (VStr "s3cr3t") CANCELLED eq_refl eq_refl eq_refl).
Defined.

(** ** More on waiting for a player *)

Section WaitingExtras.


(** X18: a second [wait_for_player_join] started while a first one is
    suspended on its future takes its place: the handler of the first call
    is registered when the second call is made, and the registration of
    the second call replaces it.  A join request then resolves the later
    wait only, and when that wait has returned and unregistered, further
    join requests reach no handler: the earlier wait is never resolved.
    One request is outstanding at a time throughout. *)
Theorem X18_second_wait_replaces_the_first (pid : Z) (delay : positive) (s s' : value) :
  let w0 := wait_registered pid cb_none (Z.pos delay) in
  let w := two_waits pid (Z.pos delay) in
  let w1 := scheduler.run 20 [join_request {[ "secret" := s ]}; scheduler.Reply] w in
  let w2 := scheduler.run_event 20 w1 (join_request {[ "secret" := s' ]}) in
  one_request_at_a_time
    (scheduler.trace 20
       (two_waits_events (Z.pos delay)
        ++ [join_request {[ "secret" := s ]}; scheduler.Reply;
            join_request {[ "secret" := s' ]}])
       (Party.__init__ pid)) = true /\
  task_coro w0 0 = Some (co_wait_for_player_join cb_none (Z.pos delay) (W_fut 1 2)) /\
  _events (client w0) !! "activity_join" = Some (handler 1) /\
  task_coro w 3 = Some (co_wait_for_player_join cb_none (Z.pos delay) (W_fut 5 5)) /\
  _events (client w) !! "activity_join" = Some (handler 5) /\
  task_state w1 3 = Some (FINISHED (Ok s)) /\
  task_state w1 0 = Some PENDING /\
  _events (client w1) !! "activity_join" = None /\
  task_state w2 0 = Some PENDING /\
  futures (loop w2) !! 1%nat = Some PENDING.
Proof.
  cbv zeta. repeat split; vm_compute; reflexivity.
Qed.

Variables (w : World) (f : func).

(** X19: [on_player_join] and [on_spectate] only schedule the
    registration: on a session with client they return the function and add
    one task that will register it for ACTIVITY_JOIN, resp.
    ACTIVITY_SPECTATE, leaving the client untouched for now; on a session
    without client they raise [AttributeError] and schedule nothing.  When
    a function has been registered for joining and then another one for
    spectating, the peer answering each subscription in turn, both are
    registered side by side. *)
Theorem X19_decorators_schedule_the_registration :
  (_rpc (party w) = Some the_client ->
   Party.on_player_join f w
   = (Ok f, snd (asyncio.create_task (co_register_event "ACTIVITY_JOIN" f R_begin) w)) /\
   Party.on_spectate f w
   = (Ok f, snd (asyncio.create_task (co_register_event "ACTIVITY_SPECTATE" f R_begin) w)) /\
   client (exec (Party.on_player_join f) w) = client w /\
   client (exec (Party.on_spectate f) w) = client w) /\
  (_rpc (party w) = None ->
   Party.on_player_join f w = (Err (AttributeError "register_event"), w) /\
   Party.on_spectate f w = (Err (AttributeError "register_event"), w)) /\
  (forall pid g,
     _events (client (join_registered pid f)) = {[ "activity_join" := f ]} /\
     reading (client (join_registered pid f)) = [] /\
     _events (client (spectate_requested pid f g)) = {[ "activity_join" := f ]} /\
     reading (client (spectate_requested pid f g)) = [1%nat] /\
     _events (client (both_registered pid f g))
     = {[ "activity_join" := f; "activity_spectate" := g ]}).
Proof.
  split; [| split].
  - intros Hc. unfold exec, Party.on_player_join, Party.on_spectate, Party.rpc_attr,
      bind, gets. cbn. rewrite Hc. now repeat split.
  - intros Hn. unfold Party.on_player_join, Party.on_spectate, Party.rpc_attr,
      bind, gets. cbn. rewrite Hn. now split.
  - intros pid g. repeat split; vm_compute; reflexivity.
Qed.

End WaitingExtras.

Lemma X19_decorators_schedule_the_registration_witness :
  Party.on_spectate (handler 0) (failed_start 7 false)
  = (Err (AttributeError "register_event"), failed_start 7 false) /\
  fst (Party.on_spectate (handler 0) (Party.__init__ 7)) = Ok (handler 0).
Proof.
  split.
  - destruct (X19_decorators_schedule_the_registration (failed_start 7 false) (handler 0))
      as (_ & Hnone & _).
    exact (proj2 (Hnone eq_refl)).
  - destruct (X19_decorators_schedule_the_registration (Party.__init__ 7) (handler 0))
      as (Hsome & _).
    destruct (Hsome eq_refl) as (_ & Hsp & _). now rewrite Hsp.
Defined.
